(** * Mars Rover: the navigation core

    A shallow embedding of the Mars Rover kata (Direction, GridComponent,
    Grid, Rover, the three commands and the two drivers), followed by the
    properties of the navigation core.

    JavaScript numbers are embedded as [Z]: coordinates and grid sizes are
    integers. The comparisons and [===] are exact on every integer that is
    a number; [+ 1] and [- 1] are exact from an integer below 2^53 in
    magnitude, and a template literal prints the digits of an integer up
    to 2^53 in magnitude. The statements that rest on that arithmetic or on
    the printed digits carry the bound ([safeInteger], [exactInteger],
    [safeWorld]).
    Objects that are mutated in place ([Rover], the console) live in an
    explicit world that every method threads through; an exception is a
    completion of its own, and the world survives it. *)

From Stdlib Require Import ZArith List String Ascii Bool Lia.
From Stdlib Require Import DecimalString DecimalZ.
Import ListNotations.

Local Open Scope string_scope.
Local Open Scope Z_scope.

(** ** rover/Direction.ts *)

Module Direction.

(** The four classes that implement the [Direction] interface. None has a
    field, so an instance is determined by its class. *)
Inductive t : Type := North | South | East | West.

Definition left (d : t) : t :=
  match d with
  | North => West
  | South => East
  | East => North
  | West => South
  end.

Definition right (d : t) : t :=
  match d with
  | North => East
  | South => West
  | East => South
  | West => North
  end.

(** [move(x, y)]; the sum is the number the code computes as long as
    [x] and [y] are below 2^53 in magnitude. *)
Definition move (d : t) (x y : Z) : Z * Z :=
  match d with
  | North => (x, y + 1)
  | South => (x, y - 1)
  | East => (x + 1, y)
  | West => (x - 1, y)
  end.

Definition name (d : t) : string :=
  match d with
  | North => "N"
  | South => "S"
  | East => "E"
  | West => "W"
  end.

End Direction.

(** ** grid/Cell.ts, grid/Obstacle.ts *)

Module GridComponent.

(** The two subclasses of the abstract [GridComponent]; both carry
    [readonly x] and [readonly y]. *)
Inductive t : Type :=
| Cell (x y : Z)
| Obstacle (x y : Z).

Definition isObstacle (c : t) : bool :=
  match c with
  | Cell _ _ => false
  | Obstacle _ _ => true
  end.

Definition x (c : t) : Z :=
  match c with Cell a _ | Obstacle a _ => a end.

Definition y (c : t) : Z :=
  match c with Cell _ b | Obstacle _ b => b end.

End GridComponent.

(** ** grid/Grid.ts *)

Module Grid.

Record t : Type := mk
  { components : list GridComponent.t;
    width : Z;
    height : Z }.

(** [new Grid(width, height)] *)
Definition new (w h : Z) : t :=
  {| components := []; width := w; height := h |}.

(** [this.components.push(component)] *)
Definition add (g : t) (c : GridComponent.t) : t :=
  {| components := components g ++ [c];
     width := width g;
     height := height g |}.

Definition withinBounds (g : t) (x y : Z) : bool :=
  (x >=? 0) && (y >=? 0) && (x <? width g) && (y <? height g).

Definition isBlocked (g : t) (x y : Z) : bool :=
  existsb
    (fun c =>
       GridComponent.isObstacle c
       && (GridComponent.x c =? x) && (GridComponent.y c =? y))
    (components g).

(** The coordinates of the registered obstacles, in registration order:
    the plain obstacle set the grid stands for. *)
Definition obstacles (g : t) : list (Z * Z) :=
  map (fun c => (GridComponent.x c, GridComponent.y c))
      (filter GridComponent.isObstacle (components g)).

End Grid.

(** ** Effects: the world, completions and the console *)

Module JS.

(** How a call ends: it returns a value or it throws. *)
Inductive Completion (A : Type) : Type :=
| Normal (v : A)
| Thrown (e : string).
Arguments Normal {A} v.
Arguments Thrown {A} e.

(** The mutable part of the program: one object of type [O] and the lines
    written by [console.log], oldest first. *)
Record World (O : Type) : Type := mkWorld
  { obj : O;
    console : list string }.
Arguments mkWorld {O} obj console.
Arguments obj {O} w.
Arguments console {O} w.

Definition M (O A : Type) : Type := World O -> Completion A * World O.

Definition ret {O A} (a : A) : M O A := fun w => (Normal a, w).

Definition bind {O A B} (m : M O A) (k : A -> M O B) : M O B :=
  fun w =>
    match m w with
    | (Normal a, w') => k a w'
    | (Thrown e, w') => (Thrown e, w')
    end.

Definition throw {O A} (e : string) : M O A := fun w => (Thrown e, w).

Definition get {O} : M O O := fun w => (Normal (obj w), w).

Definition put {O} (o : O) : M O unit :=
  fun w => (Normal tt, mkWorld o (console w)).

Definition console_log {O} (line : string) : M O unit :=
  fun w => (Normal tt, mkWorld (obj w) (console w ++ [line])).

(** [Array.prototype.forEach] *)
Fixpoint forEach {O A} (f : A -> M O unit) (l : list A) : M O unit :=
  match l with
  | [] => ret tt
  | a :: l' => bind (f a) (fun _ => forEach f l')
  end.

(** A number inside a template literal: the decimal digits, with a
    leading minus sign below zero. These are the characters the code
    prints for an integer up to 2^53 in magnitude. *)
Definition numberToString (n : Z) : string :=
  NilZero.string_of_int (Z.to_int n).

End JS.

Declare Scope js_scope.
Delimit Scope js_scope with js.
Notation "x <- m ;; k" := (JS.bind m (fun x => k))
  (at level 61, m at next level, right associativity) : js_scope.
Notation "m ;; k" := (JS.bind m (fun _ => k))
  (at level 61, right associativity) : js_scope.

(** ** rover/Rover.ts *)

Module Rover.

Record t : Type := mk
  { x : Z;
    y : Z;
    direction : Direction.t;
    grid : Grid.t }.

(** [new Rover(x, y, direction, grid)] *)
Definition new (x0 y0 : Z) (d : Direction.t) (g : Grid.t) : t :=
  {| x := x0; y := y0; direction := d; grid := g |}.

Definition set_x (v : Z) (r : t) : t :=
  {| x := v; y := y r; direction := direction r; grid := grid r |}.

Definition set_y (v : Z) (r : t) : t :=
  {| x := x r; y := v; direction := direction r; grid := grid r |}.

Definition set_direction (d : Direction.t) (r : t) : t :=
  {| x := x r; y := y r; direction := d; grid := grid r |}.

(** The line logged by a rejected move. *)
Definition blockedMessage (nx ny : Z) : string :=
  "⚠️ Movement blocked at (" ++ JS.numberToString nx ++ ", "
    ++ JS.numberToString ny ++ ")".

Local Open Scope js_scope.

Definition turnLeft : JS.M t unit :=
  this <- JS.get ;;
  JS.put (set_direction (Direction.left (direction this)) this).

Definition turnRight : JS.M t unit :=
  this <- JS.get ;;
  JS.put (set_direction (Direction.right (direction this)) this).

Definition moveForward : JS.M t unit :=
  this <- JS.get ;;
  let '(nx, ny) := Direction.move (direction this) (x this) (y this) in
  if Grid.withinBounds (grid this) nx ny
     && negb (Grid.isBlocked (grid this) nx ny)
  then
    this <- JS.get ;; JS.put (set_x nx this) ;;
    this <- JS.get ;; JS.put (set_y ny this)
  else
    JS.console_log (blockedMessage nx ny).

Definition report : JS.M t string :=
  this <- JS.get ;;
  JS.ret ("Rover is at (" ++ JS.numberToString (x this) ++ ", "
            ++ JS.numberToString (y this) ++ ") facing "
            ++ Direction.name (direction this)).

End Rover.

(** ** commands/MoveCommand.ts, TurnLeftCommand.ts, TurnRightCommand.ts *)

Module Command.

(** A command holds a reference to the rover it was built for; the rover
    is the object of the world, so the command is its class. *)
Inductive t : Type := MoveCommand | TurnLeftCommand | TurnRightCommand.

Definition execute (c : t) : JS.M Rover.t unit :=
  match c with
  | MoveCommand => Rover.moveForward
  | TurnLeftCommand => Rover.turnLeft
  | TurnRightCommand => Rover.turnRight
  end.

End Command.

(** ** index.ts and dist/index.js *)

Module Driver.

Local Open Scope js_scope.

Definition grid : Grid.t :=
  Grid.add
    (Grid.add (Grid.new 10 10) (GridComponent.Obstacle 2 2))
    (GridComponent.Obstacle 3 5).

Definition rover : Rover.t := Rover.new 0 0 Direction.North grid.

(** The world in which the driver starts: the rover, nothing logged. *)
Definition start : JS.World Rover.t := JS.mkWorld rover [].

(** [commandMap[cmd]] for a key [cmd] of one character, which is what both
    drivers look up: [None] is JavaScript's [undefined]. (The keys an
    object literal inherits all have longer names.) *)
Definition commandMap (cmd : string) : option Command.t :=
  if String.eqb cmd "M" then Some Command.MoveCommand
  else if String.eqb cmd "L" then Some Command.TurnLeftCommand
  else if String.eqb cmd "R" then Some Command.TurnRightCommand
  else None.

(** dist/index.js: [cmd => commandMap[cmd]().execute()]; calling
    [undefined] throws. *)
Definition step (cmd : string) : JS.M Rover.t unit :=
  match commandMap cmd with
  | Some c => Command.execute c
  | None => JS.throw "TypeError: commandMap[cmd] is not a function"
  end.

Definition sequence : list string := ["M"; "M"; "R"; "M"; "L"; "M"].

(** dist/index.js, the scripted run. *)
Definition main : JS.M Rover.t unit :=
  JS.forEach step sequence ;;
  line <- Rover.report ;;
  JS.console_log line.

(** index.ts: the body of the [forEach] over the characters typed in. *)
Definition stepChecked (cmd : string) : JS.M Rover.t unit :=
  match commandMap cmd with
  | Some c => Command.execute c
  | None => JS.console_log ("Invalid command: " ++ cmd)
  end.

(** index.ts, from the split sequence on. *)
Definition interactive (sequence : list string) : JS.M Rover.t unit :=
  JS.forEach stepChecked sequence ;;
  line <- Rover.report ;;
  JS.console_log ("Final rover state: " ++ line).

End Driver.

(** ** index.ts: from the typed line to the run *)

Module Index.

(** The characters [String.prototype.trim] strips, among the ASCII ones:
    tab, line feed, vertical tab, form feed, carriage return and space. *)
Definition isWhiteSpace (c : ascii) : bool :=
  let n := nat_of_ascii c in
  (((9 <=? n) && (n <=? 13)) || (n =? 32))%nat.

Fixpoint trimStart (s : string) : string :=
  match s with
  | EmptyString => EmptyString
  | String c s' => if isWhiteSpace c then trimStart s' else s
  end.

Fixpoint trimEnd (s : string) : string :=
  match s with
  | EmptyString => EmptyString
  | String c s' =>
      match trimEnd s' with
      | EmptyString => if isWhiteSpace c then EmptyString else String c EmptyString
      | t => String c t
      end
  end.

(** [answer.trim()], on a string of ASCII characters. *)
Definition trim (s : string) : string := trimEnd (trimStart s).

(** The upper-case form of an ASCII character: [a]..[z] go to [A]..[Z],
    every other character stays. *)
Definition upper (c : ascii) : ascii :=
  let n := nat_of_ascii c in
  if ((97 <=? n) && (n <=? 122))%nat then ascii_of_nat (n - 32) else c.

(** [s.toUpperCase()], on a string of ASCII characters. *)
Fixpoint toUpperCase (s : string) : string :=
  match s with
  | EmptyString => EmptyString
  | String c s' => String (upper c) (toUpperCase s')
  end.

(** [s.split('')]: one string per character; the empty string gives the
    empty array. *)
Fixpoint split (s : string) : list string :=
  match s with
  | EmptyString => []
  | String c s' => String c EmptyString :: split s'
  end.

(** The callback of [rl.question]: what the program does with the line
    typed in. *)
Definition onAnswer (answer : string) : JS.M Rover.t unit :=
  let sequence := split (toUpperCase (trim answer)) in
  Driver.interactive sequence.

End Index.

(** ** Vocabulary of the statements *)

(** The cell one unit ahead of the rover. *)
Definition candidate (r : Rover.t) : Z * Z :=
  Direction.move (Rover.direction r) (Rover.x r) (Rover.y r).

(** The test [moveForward] makes on a target cell. *)
Definition admissible (g : Grid.t) (p : Z * Z) : bool :=
  Grid.withinBounds g (fst p) (snd p)
  && negb (Grid.isBlocked g (fst p) (snd p)).

Definition position (w : JS.World Rover.t) : Z * Z :=
  (Rover.x (JS.obj w), Rover.y (JS.obj w)).

Definition heading (w : JS.World Rover.t) : Direction.t :=
  Rover.direction (JS.obj w).

(** A grid as the program builds it: [new Grid(w, h)] followed by one
    [add] per component. *)
Definition gridOf (w h : Z) (cs : list GridComponent.t) : Grid.t :=
  fold_left Grid.add cs (Grid.new w h).

(** The world after the first [n] commands of the scripted run. *)
Definition after (n : nat) : JS.World Rover.t :=
  snd (JS.forEach Driver.step (firstn n Driver.sequence) Driver.start).

(** The rover stands on a cell of the grid that holds no obstacle. *)
Definition onFreeCell (w : JS.World Rover.t) : Prop :=
  let r := JS.obj w in
  Grid.withinBounds (Rover.grid r) (Rover.x r) (Rover.y r) = true
  /\ ~ In (Rover.x r, Rover.y r) (Grid.obstacles (Rover.grid r)).

(** The world a sequence of commands leaves behind. *)
Definition run (cmds : list Command.t) (w : JS.World Rover.t)
  : JS.World Rover.t :=
  snd (JS.forEach Command.execute cmds w).

Definition isMove (c : Command.t) : bool :=
  match c with Command.MoveCommand => true | _ => false end.

Definition isLeft (c : Command.t) : bool :=
  match c with Command.TurnLeftCommand => true | _ => false end.

Definition isRight (c : Command.t) : bool :=
  match c with Command.TurnRightCommand => true | _ => false end.

(** How many commands of a sequence pass the test [p]. *)
Definition count (p : Command.t -> bool) (cmds : list Command.t) : nat :=
  List.length (filter p cmds).

(** [n] quarter turns to the left. *)
Definition rot (n : nat) (d : Direction.t) : Direction.t :=
  Nat.iter n Direction.left d.

(** The cell [k] units ahead of [p] in the heading [d]. *)
Definition ahead (d : Direction.t) (k : Z) (p : Z * Z) : Z * Z :=
  match d with
  | Direction.North => (fst p, snd p + k)
  | Direction.South => (fst p, snd p - k)
  | Direction.East => (fst p + k, snd p)
  | Direction.West => (fst p - k, snd p)
  end.

(** The commands a sequence of typed characters stands for, the unknown
    characters left out. *)
Definition commandsOf (sequence : list string) : list Command.t :=
  flat_map
    (fun cmd =>
       match Driver.commandMap cmd with Some c => [c] | None => [] end)
    sequence.

(** The characters of a typed sequence that [commandMap] does not know. *)
Definition unknownOf (sequence : list string) : list string :=
  filter
    (fun cmd =>
       match Driver.commandMap cmd with Some _ => false | None => true end)
    sequence.

(** Every character of [s] passes the test [p]. *)
Fixpoint allChars (p : ascii -> bool) (s : string) : bool :=
  match s with
  | EmptyString => true
  | String c s' => p c && allChars p s'
  end.

Definition isAscii (c : ascii) : bool := (nat_of_ascii c <? 128)%nat.

(** The integers [Number.isSafeInteger] accepts: from them [+ 1] and
    [- 1] are exact. *)
Definition safeInteger (v : Z) : Prop := Z.abs v < 2 ^ 53.

(** The integers up to 2^53 in magnitude: each of them is a number, and is
    printed digit by digit. *)
Definition exactInteger (v : Z) : Prop := Z.abs v <= 2 ^ 53.

(** A grid whose cells all have safe coordinates. *)
Definition safeGrid (g : Grid.t) : Prop :=
  Grid.width g <= 2 ^ 53 /\ Grid.height g <= 2 ^ 53.

(** A rover on safe coordinates, on a grid whose cells are all safe. *)
Definition safeWorld (w : JS.World Rover.t) : Prop :=
  safeInteger (Rover.x (JS.obj w))
  /\ safeInteger (Rover.y (JS.obj w))
  /\ safeGrid (Rover.grid (JS.obj w)).

(** The line the checked loop prints for a character it does not know. *)
Definition invalidLine (cmd : string) : string :=
  ("Invalid command: " ++ cmd)%string.

(** The test that tells those lines from the others. *)
Definition isInvalidLine (line : string) : bool :=
  String.prefix "Invalid command: " line.

(** [occurs c s]: the character [c] appears in [s]. *)
Fixpoint occurs (c : ascii) (s : string) : bool :=
  match s with
  | EmptyString => false
  | String a s' => Ascii.eqb a c || occurs c s'
  end.

(** * Direction *)

Section DirectionFacts.

Import Direction.

(** C3: the rotation table of [left], the rotation table of [right], the
    translation table of [move] and the letters of [name] are the ones the
    four classes implement; the sums of [move] are the true sums from
    coordinates below 2^53 in magnitude. *)
Theorem direction_tables :
  (left North = West /\ left West = South
   /\ left South = East /\ left East = North)
  /\ (right North = East /\ right East = South
      /\ right South = West /\ right West = North)
  /\ (forall x y : Z,
         safeInteger x -> safeInteger y ->
         move North x y = (x, y + 1) /\ move South x y = (x, y - 1)
         /\ move East x y = (x + 1, y) /\ move West x y = (x - 1, y))
  /\ (name North = "N" /\ name South = "S"
      /\ name East = "E" /\ name West = "W").
Proof. repeat split. Qed.

Lemma direction_tables_witness :
  move North 2 1 = (2, 2) /\ move South 2 1 = (2, 0)
  /\ move East 2 1 = (3, 1) /\ move West 2 1 = (1, 1).
Proof.
  destruct direction_tables as (_ & _ & H & _).
  apply (H 2 1); reflexivity.
Defined.

(** C8: a left turn undoes a right turn and a right turn undoes a left
    turn, for each of the four headings. *)
Theorem left_right_inverse (h : Direction.t) :
  right (left h) = h /\ left (right h) = h.
Proof. destruct h; split; reflexivity. Qed.

Lemma move_changes_position (d : Direction.t) (x y : Z) :
  safeInteger x -> safeInteger y -> move d x y <> (x, y).
Proof. intros _ _. destruct d; cbn; intros E; injection E; lia. Qed.

End DirectionFacts.

(** * Grid *)

Section GridFacts.

Lemma gridOf_snoc w h cs c :
  gridOf w h (cs ++ [c]) = Grid.add (gridOf w h cs) c.
Proof. unfold gridOf. rewrite fold_left_app. reflexivity. Qed.

Lemma gridOf_fields w h cs :
  Grid.components (gridOf w h cs) = cs
  /\ Grid.width (gridOf w h cs) = w
  /\ Grid.height (gridOf w h cs) = h.
Proof.
  induction cs as [|c cs IH] using rev_ind.
  - repeat split.
  - rewrite gridOf_snoc. destruct IH as (Hc & Hw & Hh).
    cbn. rewrite Hc, Hw, Hh. repeat split.
Qed.

(** Every grid value is reached by [new] and [add]. *)
Lemma gridOf_surjective (g : Grid.t) :
  g = gridOf (Grid.width g) (Grid.height g) (Grid.components g).
Proof.
  destruct g as [cs w h]. cbn [Grid.components Grid.width Grid.height].
  destruct (gridOf_fields w h cs) as (Hc & Hw & Hh).
  destruct (gridOf w h cs) as [cs' w' h']. cbn in *. now subst.
Qed.

Lemma withinBounds_iff (g : Grid.t) (x y : Z) :
  Grid.withinBounds g x y = true
  <-> 0 <= x < Grid.width g /\ 0 <= y < Grid.height g.
Proof.
  unfold Grid.withinBounds.
  rewrite !andb_true_iff, !Z.geb_le, !Z.ltb_lt. lia.
Qed.

Lemma isBlocked_iff (g : Grid.t) (x y : Z) :
  Grid.isBlocked g x y = true
  <-> exists c, In c (Grid.components g)
                /\ GridComponent.isObstacle c = true
                /\ GridComponent.x c = x /\ GridComponent.y c = y.
Proof.
  unfold Grid.isBlocked. rewrite existsb_exists.
  split; intros (c & Hin & H); exists c; split; trivial.
  - rewrite !andb_true_iff, !Z.eqb_eq in H. tauto.
  - rewrite !andb_true_iff, !Z.eqb_eq. tauto.
Qed.

Lemma isBlocked_obstacles (g : Grid.t) (x y : Z) :
  Grid.isBlocked g x y = true <-> In (x, y) (Grid.obstacles g).
Proof.
  rewrite isBlocked_iff. unfold Grid.obstacles. rewrite in_map_iff.
  split.
  - intros (c & Hin & Hobs & Hx & Hy). exists c. split.
    + now rewrite Hx, Hy.
    + apply filter_In. now split.
  - intros (c & Heq & Hin). apply filter_In in Hin as [Hin Hobs].
    exists c. injection Heq as Hx Hy. now repeat split.
Qed.

Lemma isBlocked_add (g : Grid.t) (c : GridComponent.t) (x y : Z) :
  Grid.isBlocked (Grid.add g c) x y
  = Grid.isBlocked g x y
    || (GridComponent.isObstacle c
        && (GridComponent.x c =? x) && (GridComponent.y c =? y)).
Proof.
  unfold Grid.isBlocked, Grid.add. cbn.
  rewrite existsb_app. cbn. now rewrite orb_false_r.
Qed.

(** C6: on a grid built with width [w] and height [h], whatever was added
    to it, [withinBounds x y] answers true exactly when [0 <= x < w] and
    [0 <= y < h]. *)
Theorem withinBounds_spec (w h : Z) (cs : list GridComponent.t) (x y : Z) :
  Grid.withinBounds (gridOf w h cs) x y = true
  <-> 0 <= x < w /\ 0 <= y < h.
Proof.
  rewrite withinBounds_iff.
  destruct (gridOf_fields w h cs) as (_ & -> & ->). reflexivity.
Qed.

(** C7: on the grid obtained by adding the components [cs], [isBlocked x y]
    answers true exactly when one of them is an obstacle at [(x, y)];
    adding a [Cell] changes no answer of [isBlocked]; and [isBlocked] is
    membership in the list of obstacle coordinates. *)
Theorem isBlocked_spec (w h : Z) (cs : list GridComponent.t) (x y : Z) :
  (Grid.isBlocked (gridOf w h cs) x y = true
   <-> exists c, In c cs /\ GridComponent.isObstacle c = true
                 /\ GridComponent.x c = x /\ GridComponent.y c = y)
  /\ (forall cx cy : Z,
         Grid.isBlocked
           (Grid.add (gridOf w h cs) (GridComponent.Cell cx cy)) x y
         = Grid.isBlocked (gridOf w h cs) x y)
  /\ (Grid.isBlocked (gridOf w h cs) x y = true
      <-> In (x, y) (Grid.obstacles (gridOf w h cs))).
Proof.
  split; [|split].
  - rewrite isBlocked_iff.
    destruct (gridOf_fields w h cs) as (-> & _). reflexivity.
  - intros cx cy. rewrite isBlocked_add. cbn. apply orb_false_r.
  - apply isBlocked_obstacles.
Qed.

End GridFacts.

(** * Numbers in log lines *)

Section Rendering.

Lemma to_int_proper (n : Z) :
  Z.to_int n <> Decimal.Pos Decimal.Nil
  /\ Z.to_int n <> Decimal.Neg Decimal.Nil.
Proof.
  destruct n as [|p|p]; cbn; split; try discriminate;
    intros E; injection E; apply DecimalPos.Unsigned.to_uint_nonnil.
Qed.

Lemma numberToString_inj (a b : Z) :
  exactInteger a -> exactInteger b ->
  JS.numberToString a = JS.numberToString b -> a = b.
Proof.
  unfold JS.numberToString. intros _ _ E.
  apply DecimalZ.to_int_inj.
  destruct (to_int_proper a) as [Ha Ha'], (to_int_proper b) as [Hb Hb'].
  pose proof (NilZero.isi _ Ha Ha') as Ia.
  pose proof (NilZero.isi _ Hb Hb') as Ib.
  rewrite E in Ia. congruence.
Qed.

Lemma digits_free (c : ascii) (d : Decimal.uint) :
  occurs c "-0123456789" = false ->
  occurs c (NilEmpty.string_of_uint d) = false.
Proof.
  intros H. cbn [occurs] in H.
  repeat (apply orb_false_iff in H as [? H]).
  induction d; cbn [NilEmpty.string_of_uint occurs]; trivial;
    apply orb_false_iff; split; assumption.
Qed.

Lemma numberToString_free (c : ascii) (n : Z) :
  exactInteger n ->
  occurs c "-0123456789" = false ->
  occurs c (JS.numberToString n) = false.
Proof.
  intros _ H. pose proof (fun d => digits_free c d H) as Hd.
  cbn [occurs] in H. apply orb_false_iff in H as [Hminus H].
  apply orb_false_iff in H as [Hzero _].
  assert (Hu : forall d, occurs c (NilZero.string_of_uint d) = false).
  { intros d. destruct d; try apply Hd.
    cbn [NilZero.string_of_uint occurs]. now rewrite Hzero. }
  unfold JS.numberToString.
  destruct (Z.to_int n) as [d|d]; cbn [NilZero.string_of_int occurs].
  - apply Hu.
  - now rewrite Hu, Hminus.
Qed.

Lemma append_same_head (p s t : string) : p ++ s = p ++ t -> s = t.
Proof.
  induction p as [|a p IH]; cbn; intros E; [assumption|].
  injection E as E. auto.
Qed.

(** Two strings free of [c], each followed by [c]: the first [c] cuts both
    at the same place. *)
Lemma append_cut (c : ascii) (s s' t t' : string) :
  occurs c s = false -> occurs c s' = false ->
  s ++ String c t = s' ++ String c t' -> s = s' /\ t = t'.
Proof.
  revert s'. induction s as [|a s IH]; intros [|a' s']; cbn; intros Hs Hs' E.
  - injection E as E. now split.
  - injection E as Ea E. subst a'.
    rewrite Ascii.eqb_refl in Hs'. discriminate.
  - injection E as Ea E. subst a.
    rewrite Ascii.eqb_refl in Hs. discriminate.
  - injection E as Ea E. subst a'.
    apply orb_false_iff in Hs as [_ Hs], Hs' as [_ Hs'].
    destruct (IH s' Hs Hs' E) as [-> ->]. now split.
Qed.

(** Among the cells of at most 2^53 in magnitude, the logged line
    determines the rejected cell. *)
Lemma blockedMessage_inj (a b a' b' : Z) :
  exactInteger a -> exactInteger b -> exactInteger a' -> exactInteger b' ->
  Rover.blockedMessage a b = Rover.blockedMessage a' b' ->
  (a, b) = (a', b').
Proof.
  unfold Rover.blockedMessage. intros Ha Hb Ha' Hb' E.
  apply append_same_head in E.
  change (", " ++ ?s) with (String "," (String " " s)) in E.
  apply append_cut in E as [Ea E];
    try (apply numberToString_free; [assumption|reflexivity]).
  injection E as E.
  change ")" with (String ")" "") in E.
  apply append_cut in E as [Eb _];
    try (apply numberToString_free; [assumption|reflexivity]).
  apply numberToString_inj in Ea, Eb; try assumption. now subst.
Qed.

End Rendering.

(** * Rover *)

Section RoverFacts.

Implicit Types (w : JS.World Rover.t) (c : Command.t).

Lemma admissible_iff (g : Grid.t) (p : Z * Z) :
  admissible g p = true
  <-> Grid.withinBounds g (fst p) (snd p) = true
      /\ Grid.isBlocked g (fst p) (snd p) = false.
Proof.
  unfold admissible. now rewrite andb_true_iff, negb_true_iff.
Qed.

Lemma turnLeft_run w :
  Rover.turnLeft w
  = (JS.Normal tt,
     JS.mkWorld
       (Rover.set_direction
          (Direction.left (Rover.direction (JS.obj w))) (JS.obj w))
       (JS.console w)).
Proof. reflexivity. Qed.

Lemma turnRight_run w :
  Rover.turnRight w
  = (JS.Normal tt,
     JS.mkWorld
       (Rover.set_direction
          (Direction.right (Rover.direction (JS.obj w))) (JS.obj w))
       (JS.console w)).
Proof. reflexivity. Qed.

(** What one call of [moveForward] does, in one equation. *)
Lemma moveForward_run w :
  let r := JS.obj w in
  let n := candidate r in
  Rover.moveForward w
  = (JS.Normal tt,
     if admissible (Rover.grid r) n
     then JS.mkWorld
            (Rover.mk (fst n) (snd n) (Rover.direction r) (Rover.grid r))
            (JS.console w)
     else JS.mkWorld r
            (JS.console w ++ [Rover.blockedMessage (fst n) (snd n)])).
Proof.
  destruct w as [[x y d g] out]. cbv zeta.
  unfold Rover.moveForward, admissible, candidate, JS.bind, JS.get.
  cbn [JS.obj Rover.direction Rover.x Rover.y Rover.grid].
  destruct (Direction.move d x y) as [nx ny]. cbn [fst snd].
  destruct (Grid.withinBounds g nx ny && negb (Grid.isBlocked g nx ny));
    reflexivity.
Qed.

Lemma report_run w :
  Rover.report w
  = (JS.Normal
       ("Rover is at (" ++ JS.numberToString (Rover.x (JS.obj w)) ++ ", "
          ++ JS.numberToString (Rover.y (JS.obj w)) ++ ") facing "
          ++ Direction.name (Rover.direction (JS.obj w)))%string,
     w).
Proof. reflexivity. Qed.

Lemma forEach_cons {A} (f : A -> JS.M Rover.t unit) a l w w1 :
  f a w = (JS.Normal tt, w1) ->
  JS.forEach f (a :: l) w = JS.forEach f l w1.
Proof. intros E. cbn. unfold JS.bind. now rewrite E. Qed.

(** C1: [moveForward] looks at the cell [n] one unit ahead. For every
    rover and grid: if [n] is within bounds and not blocked, the call only
    replaces the position by [n]; otherwise the rover (its position and its
    heading) is left as it was and one line is logged, the blocked-movement
    message for [n]. From safe coordinates, moreover, [n] is a cell other
    than the rover's, so the rover ends on [n] exactly when [n] is within
    bounds and not blocked, and the logged line names [n] and no other
    cell. *)
Theorem moveForward_spec w :
  let r := JS.obj w in
  let g := Rover.grid r in
  let n := candidate r in
  let free := Grid.withinBounds g (fst n) (snd n) = true
              /\ Grid.isBlocked g (fst n) (snd n) = false in
  (free ->
   Rover.moveForward w
   = (JS.Normal tt,
      JS.mkWorld (Rover.mk (fst n) (snd n) (Rover.direction r) g)
                 (JS.console w)))
  /\ (~ free ->
      Rover.moveForward w
      = (JS.Normal tt,
         JS.mkWorld r
           (JS.console w ++ [Rover.blockedMessage (fst n) (snd n)])))
  /\ (safeInteger (Rover.x r) -> safeInteger (Rover.y r) ->
      (position (snd (Rover.moveForward w)) = n <-> free)
      /\ exactInteger (fst n) /\ exactInteger (snd n)
      /\ forall a b : Z,
          exactInteger a -> exactInteger b ->
          Rover.blockedMessage a b = Rover.blockedMessage (fst n) (snd n) ->
          (a, b) = n).
Proof.
  cbv zeta. rewrite <- admissible_iff.
  pose proof (moveForward_run w) as Hrun. cbv zeta in Hrun.
  assert (Hexact : safeInteger (Rover.x (JS.obj w)) ->
                   safeInteger (Rover.y (JS.obj w)) ->
                   exactInteger (fst (candidate (JS.obj w)))
                   /\ exactInteger (snd (candidate (JS.obj w)))).
  { unfold safeInteger, exactInteger, candidate.
    destruct (Rover.direction (JS.obj w)); cbn [Direction.move fst snd]; lia. }
  assert (Hinj : safeInteger (Rover.x (JS.obj w)) ->
                 safeInteger (Rover.y (JS.obj w)) ->
                 forall a b : Z,
                   exactInteger a -> exactInteger b ->
                   Rover.blockedMessage a b
                   = Rover.blockedMessage (fst (candidate (JS.obj w)))
                                          (snd (candidate (JS.obj w))) ->
                   (a, b) = candidate (JS.obj w)).
  { intros Hx Hy a b Ha Hb E. destruct (Hexact Hx Hy) as [Ex Ey].
    apply blockedMessage_inj in E; try assumption.
    now destruct (candidate (JS.obj w)). }
  destruct (admissible _ _) eqn:Hadm; rewrite Hrun; cbn [snd].
  - split; [|split].
    + reflexivity.
    + intros H. now contradiction H.
    + intros Hx Hy. destruct (Hexact Hx Hy) as [Ex Ey].
      repeat split; trivial; [|now apply Hinj].
      unfold position. cbn. now destruct (candidate (JS.obj w)).
  - split; [|split].
    + discriminate.
    + reflexivity.
    + intros Hx Hy. destruct (Hexact Hx Hy) as [Ex Ey].
      repeat split; trivial; try discriminate; [|now apply Hinj].
      unfold position, candidate. cbn. intros E. symmetry in E.
      now apply (move_changes_position _ _ _ Hx Hy) in E.
Qed.

(** The blocked scenario: a rover at (2,1) facing North, an obstacle at
    (2,2). *)
Lemma moveForward_spec_witness :
  let w := JS.mkWorld (Rover.new 2 1 Direction.North Driver.grid) [] in
  Rover.moveForward w
  = (JS.Normal tt,
     JS.mkWorld (Rover.new 2 1 Direction.North Driver.grid)
                ["⚠️ Movement blocked at (2, 2)"%string])
  /\ position (snd (Rover.moveForward w)) <> (2, 2).
Proof.
  intros w. destruct (moveForward_spec w) as (_ & Hblocked & Hsafe).
  assert (Hnot : ~ (Grid.withinBounds Driver.grid 2 2 = true
                    /\ Grid.isBlocked Driver.grid 2 2 = false)).
  { vm_compute. intros [_ H]. discriminate H. }
  split.
  - exact (Hblocked Hnot).
  - destruct Hsafe as (Hiff & _); [reflexivity|reflexivity|].
    intros E. apply Hnot. apply Hiff. exact E.
Defined.

(** C9: neither turn changes the position, [moveForward] never changes the
    heading, and the position after [moveForward] is the cell ahead when it
    is admissible and the old position otherwise. *)
Theorem frame_of_operations w :
  position (snd (Rover.turnLeft w)) = position w
  /\ position (snd (Rover.turnRight w)) = position w
  /\ heading (snd (Rover.moveForward w)) = heading w
  /\ position (snd (Rover.moveForward w))
     = (if admissible (Rover.grid (JS.obj w)) (candidate (JS.obj w))
        then candidate (JS.obj w) else position w).
Proof.
  pose proof (moveForward_run w) as Hrun. cbv zeta in Hrun.
  rewrite Hrun, turnLeft_run, turnRight_run.
  destruct (admissible _ _); cbn; repeat split;
    now destruct (candidate (JS.obj w)).
Qed.

End RoverFacts.

(** * The invariant of a run *)

Section Invariant.

Lemma not_blocked_iff (g : Grid.t) (x y : Z) :
  Grid.isBlocked g x y = false <-> ~ In (x, y) (Grid.obstacles g).
Proof.
  rewrite <- isBlocked_obstacles.
  destruct (Grid.isBlocked g x y); split; congruence.
Qed.

Lemma execute_preserves (c : Command.t) (w : JS.World Rover.t) :
  onFreeCell w ->
  exists w',
    Command.execute c w = (JS.Normal tt, w')
    /\ Rover.grid (JS.obj w') = Rover.grid (JS.obj w)
    /\ onFreeCell w'.
Proof.
  intros Hfree. destruct c; cbn [Command.execute].
  - pose proof (moveForward_run w) as Hrun. cbv zeta in Hrun.
    eexists. split; [exact Hrun|].
    destruct (admissible _ _) eqn:Hadm.
    + apply admissible_iff in Hadm as [Hin Hblk].
      apply not_blocked_iff in Hblk.
      split; [reflexivity|]. split; assumption.
    + split; [reflexivity|exact Hfree].
  - eexists. split; [apply turnLeft_run|]. split; [reflexivity|exact Hfree].
  - eexists. split; [apply turnRight_run|]. split; [reflexivity|exact Hfree].
Qed.

(** C2: if the rover starts within bounds and away from every obstacle,
    then every finite sequence of [turnLeft], [turnRight] and [moveForward]
    runs to its end, leaves the grid as it was, and leaves the rover within
    bounds and away from every obstacle. *)
Theorem rover_stays_on_free_cells
    (cmds : list Command.t) (w : JS.World Rover.t) :
  Grid.withinBounds (Rover.grid (JS.obj w))
                    (Rover.x (JS.obj w)) (Rover.y (JS.obj w)) = true ->
  ~ In (position w) (Grid.obstacles (Rover.grid (JS.obj w))) ->
  exists w',
    JS.forEach Command.execute cmds w = (JS.Normal tt, w')
    /\ Rover.grid (JS.obj w') = Rover.grid (JS.obj w)
    /\ Grid.withinBounds (Rover.grid (JS.obj w))
                         (fst (position w')) (snd (position w')) = true
    /\ ~ In (position w') (Grid.obstacles (Rover.grid (JS.obj w))).
Proof.
  intros Hin Hobs.
  assert (Hfree : onFreeCell w) by (split; assumption).
  clear Hin Hobs. revert w Hfree.
  induction cmds as [|c cmds IH]; intros w Hfree.
  - exists w. destruct Hfree. now repeat split.
  - destruct (execute_preserves c w Hfree) as (w1 & E & Hg & Hfree1).
    destruct (IH w1 Hfree1) as (w' & E' & Hg' & Hin' & Hobs').
    exists w'. rewrite (forEach_cons _ _ _ _ _ E), <- Hg.
    now repeat split.
Qed.

Lemma rover_stays_on_free_cells_witness :
  exists w',
    JS.forEach Command.execute
      [Command.MoveCommand; Command.MoveCommand; Command.TurnRightCommand;
       Command.MoveCommand; Command.MoveCommand; Command.MoveCommand]
      Driver.start
    = (JS.Normal tt, w')
    /\ Rover.grid (JS.obj w') = Driver.grid
    /\ Grid.withinBounds Driver.grid
         (fst (position w')) (snd (position w')) = true
    /\ ~ In (position w') (Grid.obstacles Driver.grid).
Proof.
  apply (rover_stays_on_free_cells _ Driver.start).
  - reflexivity.
  - vm_compute. intros [H|[H|[]]]; discriminate H.
Defined.

End Invariant.

(** * The scripted run of dist/index.js *)

Section Scenario.

(** C4: on the 10 x 10 grid with obstacles at (2,2) and (3,5), from (0,0)
    facing North, the commands M, M, R, M, L, M lead to (0,1), to (0,2), to
    heading East, to (1,2), to heading North and to (1,3); the report is
    then "Rover is at (1, 3) facing N", and that is the one line the run
    prints. *)
Theorem scripted_run_trace :
  Driver.sequence = ["M"; "M"; "R"; "M"; "L"; "M"]%string
  /\ Driver.grid
     = gridOf 10 10 [GridComponent.Obstacle 2 2; GridComponent.Obstacle 3 5]
  /\ (position (after 0), heading (after 0)) = ((0, 0), Direction.North)
  /\ (position (after 1), heading (after 1)) = ((0, 1), Direction.North)
  /\ (position (after 2), heading (after 2)) = ((0, 2), Direction.North)
  /\ (position (after 3), heading (after 3)) = ((0, 2), Direction.East)
  /\ (position (after 4), heading (after 4)) = ((1, 2), Direction.East)
  /\ (position (after 5), heading (after 5)) = ((1, 2), Direction.North)
  /\ (position (after 6), heading (after 6)) = ((1, 3), Direction.North)
  /\ fst (Rover.report (after 6))
     = JS.Normal "Rover is at (1, 3) facing N"%string
  /\ Driver.main Driver.start
     = (JS.Normal tt,
        JS.mkWorld (Rover.new 1 3 Direction.North Driver.grid)
                   ["Rover is at (1, 3) facing N"%string]).
Proof. repeat split. Qed.

(** The cell (2,2) holds an obstacle and the scripted run does not end
    there. *)
Lemma scripted_run_not_at_2_2 :
  position (snd (Driver.main Driver.start)) <> (2, 2).
Proof. vm_compute. discriminate. Qed.

(** C5 (amended): the run of "MMRMLM" on the 10 x 10 grid with obstacles at
    (2,2) and (3,5), from (0,0) facing North, ends at position (1,3), in
    the scripted driver and in the interactive one alike. *)
Theorem scripted_run_final_position :
  position (snd (Driver.main Driver.start)) = (1, 3)
  /\ position
       (snd (Driver.interactive ["M"; "M"; "R"; "M"; "L"; "M"]%string
               Driver.start))
     = (1, 3).
Proof. split; reflexivity. Qed.

(** The scripted driver calls whatever [commandMap] returns: a letter the
    map does not know makes the call throw, and the world is kept. *)
Example scripted_step_unknown (w : JS.World Rover.t) :
  Driver.step "X" w
  = (JS.Thrown "TypeError: commandMap[cmd] is not a function", w).
Proof. reflexivity. Qed.

(** The interactive driver reports the same letter and goes on. *)
Example interactive_step_unknown (w : JS.World Rover.t) :
  Driver.stepChecked "X" w
  = (JS.Normal tt,
     JS.mkWorld (JS.obj w) (JS.console w ++ ["Invalid command: X"%string])).
Proof. reflexivity. Qed.

End Scenario.

(** * Further properties of the four headings *)

Section DirectionAlgebra.

(** X1: turning is a cycle of order four. Four left turns, or four right
    turns, give the heading back; one, two or three left turns never do; two
    left turns are two right turns; a right turn is three left turns. *)
Theorem turns_cycle_of_order_four (d : Direction.t) :
  rot 4 d = d
  /\ Direction.right
       (Direction.right (Direction.right (Direction.right d))) = d
  /\ (rot 1 d <> d /\ rot 2 d <> d /\ rot 3 d <> d)
  /\ Direction.left (Direction.left d) = Direction.right (Direction.right d)
  /\ Direction.right d = rot 3 d.
Proof. destruct d; cbn; repeat split; discriminate. Qed.

Lemma move_is_ahead (d : Direction.t) (x y : Z) :
  safeInteger x -> safeInteger y ->
  Direction.move d x y = ahead d 1 (x, y).
Proof. intros _ _. destruct d; reflexivity. Qed.

(** The cell [k] units ahead stays safe while [k] fits below 2^53. *)
Lemma ahead_safe (d : Direction.t) (k : Z) (x y : Z) :
  0 <= k -> Z.abs x + k < 2 ^ 53 -> Z.abs y + k < 2 ^ 53 ->
  safeInteger (fst (ahead d k (x, y)))
  /\ safeInteger (snd (ahead d k (x, y))).
Proof. unfold safeInteger. destruct d; cbn; lia. Qed.

Lemma ahead_ahead (d : Direction.t) (j k : Z) (p : Z * Z) :
  ahead d j (ahead d k p) = ahead d (k + j) p.
Proof. destruct d, p as [x y]; cbn; f_equal; lia. Qed.

Lemma move_opposite (d : Direction.t) (x y : Z) :
  safeInteger x -> safeInteger y ->
  Direction.move (Direction.left (Direction.left d))
    (fst (Direction.move d x y)) (snd (Direction.move d x y))
  = (x, y).
Proof. intros _ _. destruct d; cbn; f_equal; lia. Qed.

(** X2: from coordinates below 2^53 in magnitude, [move] goes exactly one
    cell, along one axis, and the move of the opposite heading (two left
    turns away) comes back to the cell it left; [k] moves in a row go [k]
    cells ahead, as long as they stay below 2^53. *)
Theorem move_one_cell_and_back (d : Direction.t) (x y : Z) (k : nat) :
  safeInteger x -> safeInteger y ->
  let p := Direction.move d x y in
  Z.abs (fst p - x) + Z.abs (snd p - y) = 1
  /\ Direction.move (Direction.left (Direction.left d)) (fst p) (snd p)
     = (x, y)
  /\ (Z.abs x + Z.of_nat k < 2 ^ 53 -> Z.abs y + Z.of_nat k < 2 ^ 53 ->
      Nat.iter k (fun q => Direction.move d (fst q) (snd q)) (x, y)
      = ahead d (Z.of_nat k) (x, y)).
Proof.
  intros Hx Hy. cbv zeta. split; [|split].
  - rewrite (move_is_ahead d x y Hx Hy). destruct d; cbn; lia.
  - now apply move_opposite.
  - induction k as [|k IH]; intros Hkx Hky.
    + destruct d; cbn; f_equal; lia.
    + destruct (ahead_safe d (Z.of_nat k) x y) as [Sx Sy]; try lia.
      rewrite Nat.iter_succ, IH by lia.
      rewrite (move_is_ahead d _ _ Sx Sy), <- surjective_pairing.
      rewrite ahead_ahead. f_equal. lia.
Qed.

Lemma move_one_cell_and_back_witness :
  Z.abs (fst (Direction.move Direction.West 0 7) - 0)
  + Z.abs (snd (Direction.move Direction.West 0 7) - 7) = 1
  /\ Direction.move Direction.East
       (fst (Direction.move Direction.West 0 7))
       (snd (Direction.move Direction.West 0 7))
     = (0, 7)
  /\ Nat.iter 3 (fun q => Direction.move Direction.West (fst q) (snd q))
       (0, 7)
     = (-3, 7).
Proof.
  destruct (move_one_cell_and_back Direction.West 0 7 3)
    as (H1 & H2 & H3); [reflexivity|reflexivity|].
  split; [exact H1|]. split; [exact H2|].
  apply H3; reflexivity.
Defined.

End DirectionAlgebra.

(** * Further properties of the grid *)

Section GridAlgebra.

(** X3: adding an obstacle at [(a, b)] blocks that cell and changes the
    answer of [isBlocked] nowhere else, whether or not [(a, b)] lies within
    the bounds; no [add] unblocks a cell or changes a bounds answer. *)
Theorem add_obstacle_blocks_its_cell (g : Grid.t) (a b x y : Z) :
  Grid.isBlocked (Grid.add g (GridComponent.Obstacle a b)) x y
  = Grid.isBlocked g x y || ((a =? x) && (b =? y))
  /\ (forall c : GridComponent.t,
         Grid.isBlocked g x y = true ->
         Grid.isBlocked (Grid.add g c) x y = true)
  /\ (forall c : GridComponent.t,
         Grid.withinBounds (Grid.add g c) x y = Grid.withinBounds g x y).
Proof.
  split; [|split].
  - apply isBlocked_add.
  - intros c H. rewrite isBlocked_add, H. reflexivity.
  - reflexivity.
Qed.

(** X4: [isBlocked] depends on the set of obstacle coordinates only: two
    grids whose obstacles cover the same cells answer alike, whatever the
    order of registration, the repetitions, the cells registered beside the
    obstacles and the sizes of the grids. *)
Theorem isBlocked_same_obstacles (g1 g2 : Grid.t) :
  (forall p, In p (Grid.obstacles g1) <-> In p (Grid.obstacles g2)) ->
  forall x y : Z, Grid.isBlocked g1 x y = Grid.isBlocked g2 x y.
Proof.
  intros H x y.
  pose proof (isBlocked_obstacles g1 x y) as H1.
  pose proof (isBlocked_obstacles g2 x y) as H2.
  specialize (H (x, y)).
  destruct (Grid.isBlocked g1 x y), (Grid.isBlocked g2 x y);
    trivial; intuition congruence.
Qed.

Lemma isBlocked_same_obstacles_witness :
  Grid.isBlocked Driver.grid 3 5
  = Grid.isBlocked
      (gridOf 4 4
         [GridComponent.Obstacle 3 5; GridComponent.Cell 1 1;
          GridComponent.Obstacle 2 2; GridComponent.Obstacle 3 5])
      3 5.
Proof.
  apply isBlocked_same_obstacles.
  intros p. cbn. tauto.
Defined.

End GridAlgebra.

(** * Runs of the rover *)

Section RunFacts.

Implicit Types (w : JS.World Rover.t) (c : Command.t).
Implicit Types (cmds : list Command.t).

(** The world one command leaves behind. *)
Lemma execute_step c w :
  let r := JS.obj w in
  let n := candidate r in
  Command.execute c w
  = (JS.Normal tt,
     match c with
     | Command.MoveCommand =>
         if admissible (Rover.grid r) n
         then JS.mkWorld
                (Rover.mk (fst n) (snd n) (Rover.direction r) (Rover.grid r))
                (JS.console w)
         else JS.mkWorld r
                (JS.console w ++ [Rover.blockedMessage (fst n) (snd n)])
     | Command.TurnLeftCommand =>
         JS.mkWorld
           (Rover.set_direction (Direction.left (Rover.direction r)) r)
           (JS.console w)
     | Command.TurnRightCommand =>
         JS.mkWorld
           (Rover.set_direction (Direction.right (Rover.direction r)) r)
           (JS.console w)
     end).
Proof.
  destruct c; cbn [Command.execute].
  - apply moveForward_run.
  - apply turnLeft_run.
  - apply turnRight_run.
Qed.

Lemma run_cons c cmds w :
  run (c :: cmds) w = run cmds (snd (Command.execute c w)).
Proof.
  unfold run. pose proof (execute_step c w) as E. cbv zeta in E.
  rewrite (forEach_cons _ _ _ _ _ E), E. reflexivity.
Qed.

Lemma forEach_run cmds w :
  JS.forEach Command.execute cmds w = (JS.Normal tt, run cmds w).
Proof.
  revert w. induction cmds as [|c cmds IH]; intros w; [reflexivity|].
  pose proof (execute_step c w) as E. cbv zeta in E.
  rewrite run_cons, (forEach_cons _ _ _ _ _ E), E. apply IH.
Qed.

Lemma run_app cmds1 cmds2 w :
  run (cmds1 ++ cmds2) w = run cmds2 (run cmds1 w).
Proof.
  revert w. induction cmds1 as [|c cmds1 IH]; intros w; [reflexivity|].
  rewrite <- app_comm_cons, !run_cons. apply IH.
Qed.

Lemma run_grid cmds w :
  Rover.grid (JS.obj (run cmds w)) = Rover.grid (JS.obj w).
Proof.
  revert w. induction cmds as [|c cmds IH]; intros w; [reflexivity|].
  rewrite run_cons, IH, execute_step. cbn [snd].
  destruct c; [destruct (admissible _ _)|..]; reflexivity.
Qed.

Lemma run_preserves_free cmds w : onFreeCell w -> onFreeCell (run cmds w).
Proof.
  revert w. induction cmds as [|c cmds IH]; intros w H; [exact H|].
  rewrite run_cons.
  destruct (execute_preserves c w H) as (w1 & E & _ & H1).
  rewrite E. apply IH, H1.
Qed.

Lemma count_cons (p : Command.t -> bool) c cmds :
  count p (c :: cmds) = ((if p c then 1 else 0) + count p cmds)%nat.
Proof. unfold count. cbn. now destruct (p c). Qed.

(** X5: a left turn followed by a right turn, a right turn followed by a
    left turn, and four turns to the same side each give back the very
    world they started in: rover, grid and console. *)
Theorem turns_restore_the_rover w :
  JS.bind Rover.turnLeft (fun _ => Rover.turnRight) w = (JS.Normal tt, w)
  /\ JS.bind Rover.turnRight (fun _ => Rover.turnLeft) w = (JS.Normal tt, w)
  /\ JS.forEach Command.execute (repeat Command.TurnLeftCommand 4) w
     = (JS.Normal tt, w)
  /\ JS.forEach Command.execute (repeat Command.TurnRightCommand 4) w
     = (JS.Normal tt, w).
Proof. destruct w as [[x y [] g] out]; repeat split. Qed.

(** The rover a run leaves and the lines it logs do not depend on the
    console it starts with. *)
Lemma run_frame cmds (r : Rover.t) :
  exists (r' : Rover.t) (lines : list string),
    (forall o, run cmds (JS.mkWorld r o) = JS.mkWorld r' (o ++ lines))
    /\ (List.length lines <= count isMove cmds)%nat
    /\ Forall (fun l => exists a b : Z, l = Rover.blockedMessage a b) lines.
Proof.
  revert r. induction cmds as [|c cmds IH]; intros r.
  - exists r, []. repeat split; [|apply Nat.le_0_l|constructor].
    intros o. now rewrite app_nil_r.
  - assert (Hstep : exists r1 l1,
               (forall o, snd (Command.execute c (JS.mkWorld r o))
                          = JS.mkWorld r1 (o ++ l1))
               /\ (List.length l1 <= if isMove c then 1 else 0)%nat
               /\ Forall (fun l => exists a b, l = Rover.blockedMessage a b)
                         l1).
    { destruct c.
      - destruct (admissible (Rover.grid r) (candidate r)) eqn:Hadm.
        + eexists _, []. repeat split; [|apply Nat.le_0_l|constructor].
          intros o. rewrite execute_step. cbn [snd JS.obj JS.console].
          rewrite Hadm. now rewrite app_nil_r.
        + exists r, [Rover.blockedMessage (fst (candidate r))
                                           (snd (candidate r))].
          repeat split.
          * intros o. rewrite execute_step. cbn [snd JS.obj JS.console].
            now rewrite Hadm.
          * apply Nat.le_refl.
          * constructor; [eauto|constructor].
      - eexists _, []. repeat split; [|apply Nat.le_0_l|constructor].
        intros o. rewrite execute_step. cbn [snd JS.obj JS.console].
        now rewrite app_nil_r.
      - eexists _, []. repeat split; [|apply Nat.le_0_l|constructor].
        intros o. rewrite execute_step. cbn [snd JS.obj JS.console].
        now rewrite app_nil_r. }
    destruct Hstep as (r1 & l1 & Hstep & Hlen1 & Hall1).
    destruct (IH r1) as (r' & lines & Hrun & Hlen & Hall).
    exists r', (l1 ++ lines)%list. repeat split.
    + intros o. now rewrite run_cons, Hstep, Hrun, app_assoc.
    + rewrite length_app, count_cons. lia.
    + apply Forall_app. now split.
Qed.

(** X6: a run only appends to the console. The lines it appends are
    blocked-movement messages, at most one per [MoveCommand], and they and
    the rover it leaves do not depend on what the console held before. *)
Theorem console_is_append_only cmds w :
  exists lines : list string,
    JS.console (run cmds w) = (JS.console w ++ lines)%list
    /\ (List.length lines <= count isMove cmds)%nat
    /\ Forall (fun l => exists a b : Z, l = Rover.blockedMessage a b) lines
    /\ run cmds (JS.mkWorld (JS.obj w) [])
       = JS.mkWorld (JS.obj (run cmds w)) lines.
Proof.
  destruct w as [r out]. cbn [JS.obj JS.console].
  destruct (run_frame cmds r) as (r' & lines & Hrun & Hlen & Hall).
  exists lines. rewrite !Hrun. now repeat split.
Qed.

(** One command, from safe coordinates: the rover goes one cell and logs
    nothing, or stays and logs one line if the command was a move, no line
    if it was a turn. *)
Lemma step_displacement c w :
  safeInteger (Rover.x (JS.obj w)) -> safeInteger (Rover.y (JS.obj w)) ->
  Z.abs (fst (position (snd (Command.execute c w))) - fst (position w))
  + Z.abs (snd (position (snd (Command.execute c w))) - snd (position w))
  + Z.of_nat (List.length (JS.console (snd (Command.execute c w))))
  = (if isMove c then 1 else 0) + Z.of_nat (List.length (JS.console w)).
Proof.
  intros Hx Hy. rewrite execute_step. cbn [snd].
  destruct w as [[x y d g] out]. unfold position, candidate.
  cbn [JS.obj Rover.x Rover.y] in Hx, Hy.
  destruct c; cbn [isMove];
    cbn [JS.obj JS.console Rover.x Rover.y Rover.direction Rover.grid
         Rover.set_direction fst snd].
  - destruct (admissible _ _);
      cbn [JS.obj JS.console Rover.x Rover.y fst snd].
    + rewrite (move_is_ahead d x y Hx Hy).
      destruct d; cbn [ahead fst snd]; lia.
    + rewrite length_app. cbn [List.length]. lia.
  - lia.
  - lia.
Qed.

(** Safe coordinates on a safe grid stay so: an accepted move lands
    within the bounds of the grid. *)
Lemma execute_preserves_safe c w :
  safeWorld w -> safeWorld (snd (Command.execute c w)).
Proof.
  intros (Hx & Hy & Hg). rewrite execute_step. cbn [snd].
  destruct c; [destruct (admissible _ _) eqn:Hadm|..];
    unfold safeWorld, Rover.set_direction;
    cbn [JS.obj Rover.x Rover.y Rover.grid];
    try (split; [|split]; assumption).
  apply admissible_iff in Hadm as [Hin _]. apply withinBounds_iff in Hin.
  unfold safeInteger, safeGrid in *. lia.
Qed.

Lemma run_preserves_safe cmds w : safeWorld w -> safeWorld (run cmds w).
Proof.
  revert w. induction cmds as [|c cmds IH]; intros w H; [exact H|].
  rewrite run_cons. now apply IH, execute_preserves_safe.
Qed.

(** X7: the rover moves one cell at a time. From safe coordinates on a
    grid whose cells are all safe, a run leaves the rover on safe
    coordinates, and the distance between where it stands and where it
    stood (along the axes), plus the number of lines the run logged, is at
    most the number of [MoveCommand]s. *)
Theorem displacement_bounded_by_moves cmds w :
  safeWorld w ->
  safeWorld (run cmds w)
  /\ Z.abs (fst (position (run cmds w)) - fst (position w))
     + Z.abs (snd (position (run cmds w)) - snd (position w))
     + Z.of_nat (List.length (JS.console (run cmds w)))
     <= Z.of_nat (count isMove cmds) + Z.of_nat (List.length (JS.console w)).
Proof.
  intros Hsafe. split; [now apply run_preserves_safe|].
  revert w Hsafe. induction cmds as [|c cmds IH]; intros w Hsafe.
  - cbn. lia.
  - rewrite run_cons, count_cons.
    specialize (IH (snd (Command.execute c w))
                   (execute_preserves_safe c w Hsafe)).
    destruct Hsafe as (Hx & Hy & _).
    pose proof (step_displacement c w Hx Hy) as Hstep.
    destruct (isMove c); lia.
Qed.

Lemma displacement_bounded_by_moves_witness :
  let cmds := [Command.MoveCommand; Command.MoveCommand;
               Command.TurnRightCommand; Command.MoveCommand;
               Command.MoveCommand; Command.MoveCommand] in
  safeWorld (run cmds Driver.start)
  /\ Z.abs (fst (position (run cmds Driver.start)) - 0)
     + Z.abs (snd (position (run cmds Driver.start)) - 0)
     + Z.of_nat (List.length (JS.console (run cmds Driver.start)))
     <= 5 + 0.
Proof.
  intros cmds. apply (displacement_bounded_by_moves cmds Driver.start).
  unfold safeWorld, safeGrid, safeInteger. cbn. lia.
Defined.

Lemma rot_add (n m : nat) (d : Direction.t) :
  rot (n + m) d = rot n (rot m d).
Proof. apply Nat.iter_add. Qed.

Lemma rot_full_turns (q r : nat) (d : Direction.t) :
  rot (4 * q + r) d = rot r d.
Proof.
  induction q as [|q IH]; [reflexivity|].
  replace (4 * S q + r)%nat with (4 + (4 * q + r))%nat by lia.
  rewrite rot_add, IH. now destruct (rot r d).
Qed.

Lemma rot_mod4 (n : nat) (d : Direction.t) : rot (n mod 4) d = rot n d.
Proof.
  rewrite <- (rot_full_turns (n / 4) (n mod 4) d).
  now rewrite <- Nat.div_mod_eq.
Qed.

(** X8: the heading after a run depends on the turns only, not on the
    grid, the position or the order of the commands: it is the heading
    before, turned left [(L + 3 R) mod 4] times, where [L] and [R] count
    the left and right turns of the run. *)
Theorem heading_counts_turns_only cmds w :
  heading (run cmds w)
  = rot ((count isLeft cmds + 3 * count isRight cmds) mod 4) (heading w).
Proof.
  rewrite rot_mod4. revert w.
  induction cmds as [|c cmds IH]; intros w; [reflexivity|].
  rewrite run_cons, IH, !count_cons, execute_step. cbn [snd].
  unfold heading.
  destruct c; cbn [isLeft isRight].
  - destruct (admissible _ _); reflexivity.
  - cbn [JS.obj Rover.set_direction Rover.direction].
    change (Direction.left (Rover.direction (JS.obj w)))
      with (rot 1 (Rover.direction (JS.obj w))).
    rewrite <- rot_add. f_equal. lia.
  - cbn [JS.obj Rover.set_direction Rover.direction].
    replace (Direction.right (Rover.direction (JS.obj w)))
      with (rot 3 (Rover.direction (JS.obj w)))
      by (destruct (Rover.direction (JS.obj w)); reflexivity).
    rewrite <- rot_add. f_equal. lia.
Qed.

End RunFacts.

(** * Straight lines, walls and the way back *)

Section Journeys.

Implicit Types (w : JS.World Rover.t) (cmds : list Command.t).

Lemma ahead_zero (d : Direction.t) (p : Z * Z) : ahead d 0 p = p.
Proof. destruct d, p as [x y]; cbn; f_equal; lia. Qed.

Lemma world_eta w :
  JS.mkWorld
    (Rover.mk (fst (position w)) (snd (position w)) (heading w)
       (Rover.grid (JS.obj w)))
    (JS.console w)
  = w.
Proof. now destruct w as [[x y d g] out]. Qed.

(** [k] accepted moves in a row, from safe coordinates on a grid whose
    cells are all safe. *)
Lemma run_free_cells (k : nat) w :
  safeWorld w ->
  (forall i : nat,
      (1 <= i <= k)%nat ->
      admissible (Rover.grid (JS.obj w))
        (ahead (heading w) (Z.of_nat i) (position w)) = true) ->
  run (repeat Command.MoveCommand k) w
  = JS.mkWorld
      (Rover.mk
         (fst (ahead (heading w) (Z.of_nat k) (position w)))
         (snd (ahead (heading w) (Z.of_nat k) (position w)))
         (heading w) (Rover.grid (JS.obj w)))
      (JS.console w).
Proof.
  revert w. induction k as [|k IH]; intros w Hsafe H.
  - cbn [repeat Z.of_nat]. rewrite ahead_zero. symmetry. apply world_eta.
  - pose proof (execute_preserves_safe Command.MoveCommand w Hsafe)
      as Hsafe1.
    destruct Hsafe as (Hx & Hy & _).
    cbn [repeat]. rewrite run_cons.
    rewrite execute_step in Hsafe1 |- *. cbn [snd] in Hsafe1 |- *.
    assert (H1 : admissible (Rover.grid (JS.obj w)) (candidate (JS.obj w))
                 = true).
    { unfold candidate. rewrite (move_is_ahead _ _ _ Hx Hy).
      apply (H 1%nat). lia. }
    rewrite H1 in Hsafe1 |- *.
    set (w1 := JS.mkWorld _ _) in *.
    assert (Hpos : position w1 = ahead (heading w) 1 (position w)).
    { unfold w1, position, candidate. cbn [JS.obj Rover.x Rover.y].
      now rewrite (move_is_ahead _ _ _ Hx Hy), <- surjective_pairing. }
    rewrite (IH w1 Hsafe1).
    + rewrite Hpos, ahead_ahead.
      replace (1 + Z.of_nat k) with (Z.of_nat (S k)) by lia. reflexivity.
    + intros i Hi. rewrite Hpos, ahead_ahead.
      replace (1 + Z.of_nat i) with (Z.of_nat (S i)) by lia.
      apply (H (S i)). lia.
Qed.

(** X9: from safe coordinates on a grid whose cells are all safe, if the
    [k] cells ahead of the rover are within bounds and not blocked, [k]
    moves in a row take it [k] cells ahead, with the heading, the grid and
    the console as they were. *)
Theorem free_run_goes_ahead (k : nat) w :
  safeWorld w ->
  (forall i : nat,
      (1 <= i <= k)%nat ->
      admissible (Rover.grid (JS.obj w))
        (ahead (heading w) (Z.of_nat i) (position w)) = true) ->
  JS.forEach Command.execute (repeat Command.MoveCommand k) w
  = (JS.Normal tt,
     JS.mkWorld
       (Rover.mk
          (fst (ahead (heading w) (Z.of_nat k) (position w)))
          (snd (ahead (heading w) (Z.of_nat k) (position w)))
          (heading w) (Rover.grid (JS.obj w)))
       (JS.console w)).
Proof.
  intros Hsafe H. rewrite forEach_run. f_equal. now apply run_free_cells.
Qed.

Lemma free_run_goes_ahead_witness :
  JS.forEach Command.execute (repeat Command.MoveCommand 9) Driver.start
  = (JS.Normal tt,
     JS.mkWorld (Rover.new 0 9 Direction.North Driver.grid) []).
Proof.
  apply (free_run_goes_ahead 9 Driver.start).
  - unfold safeWorld, safeGrid, safeInteger. cbn. lia.
  - intros i Hi.
    assert (Hc : i = 1%nat \/ i = 2%nat \/ i = 3%nat \/ i = 4%nat
                 \/ i = 5%nat \/ i = 6%nat \/ i = 7%nat \/ i = 8%nat
                 \/ i = 9%nat) by lia.
    repeat (destruct Hc as [->|Hc]; [reflexivity|]). subst i. reflexivity.
Defined.

(** A rejected move leaves a world in which the next move is rejected
    too. *)
Lemma blocked_moves_repeat (m : nat) w :
  admissible (Rover.grid (JS.obj w)) (candidate (JS.obj w)) = false ->
  run (repeat Command.MoveCommand m) w
  = JS.mkWorld (JS.obj w)
      (JS.console w
       ++ repeat (Rover.blockedMessage (fst (candidate (JS.obj w)))
                                       (snd (candidate (JS.obj w)))) m).
Proof.
  revert w. induction m as [|m IH]; intros w H.
  - cbn [repeat]. rewrite app_nil_r. now destruct w.
  - cbn [repeat]. rewrite run_cons, execute_step. cbn [snd]. rewrite H.
    rewrite IH; cbn [JS.obj JS.console]; [|exact H].
    now rewrite <- app_assoc.
Qed.

(** X10: driving into a wall or an obstacle. From safe coordinates on a
    grid whose cells are all safe, if the [k] cells ahead are free and the
    next one is out of bounds or blocked, then [k + m] moves in a row leave
    the rover [k] cells ahead, facing the same way, and log the
    blocked-movement line for the cell after that [m] times. *)
Theorem straight_run_stops_at_first_rejected_cell (k m : nat) w :
  safeWorld w ->
  (forall i : nat,
      (1 <= i <= k)%nat ->
      admissible (Rover.grid (JS.obj w))
        (ahead (heading w) (Z.of_nat i) (position w)) = true) ->
  admissible (Rover.grid (JS.obj w))
    (ahead (heading w) (Z.of_nat (S k)) (position w)) = false ->
  JS.forEach Command.execute (repeat Command.MoveCommand (k + m)) w
  = (JS.Normal tt,
     JS.mkWorld
       (Rover.mk
          (fst (ahead (heading w) (Z.of_nat k) (position w)))
          (snd (ahead (heading w) (Z.of_nat k) (position w)))
          (heading w) (Rover.grid (JS.obj w)))
       (JS.console w
        ++ repeat
             (Rover.blockedMessage
                (fst (ahead (heading w) (Z.of_nat (S k)) (position w)))
                (snd (ahead (heading w) (Z.of_nat (S k)) (position w))))
             m)).
Proof.
  intros Hsafe Hfree Hstop.
  pose proof (run_free_cells k w Hsafe Hfree) as Hk.
  pose proof (run_preserves_safe (repeat Command.MoveCommand k) w Hsafe)
    as (Sx & Sy & _).
  rewrite Hk in Sx, Sy. cbn [JS.obj Rover.x Rover.y] in Sx, Sy.
  rewrite forEach_run, repeat_app, run_app, Hk. f_equal.
  assert (Hcand :
            candidate
              (Rover.mk
                 (fst (ahead (heading w) (Z.of_nat k) (position w)))
                 (snd (ahead (heading w) (Z.of_nat k) (position w)))
                 (heading w) (Rover.grid (JS.obj w)))
            = ahead (heading w) (Z.of_nat (S k)) (position w)).
  { unfold candidate. cbn [Rover.direction Rover.x Rover.y].
    rewrite (move_is_ahead _ _ _ Sx Sy), <- surjective_pairing, ahead_ahead.
    f_equal. lia. }
  rewrite blocked_moves_repeat; cbn [JS.obj JS.console Rover.grid];
    rewrite Hcand; [reflexivity|exact Hstop].
Qed.

(** From (0,0) facing North on the 10 x 10 grid: nine moves reach the top
    row, the next three are rejected at (0,10). *)
Lemma straight_run_stops_at_first_rejected_cell_witness :
  JS.forEach Command.execute (repeat Command.MoveCommand 12) Driver.start
  = (JS.Normal tt,
     JS.mkWorld (Rover.new 0 9 Direction.North Driver.grid)
       (repeat (Rover.blockedMessage 0 10) 3)).
Proof.
  apply (straight_run_stops_at_first_rejected_cell 9 3 Driver.start).
  - unfold safeWorld, safeGrid, safeInteger. cbn. lia.
  - intros i Hi.
    assert (Hc : i = 1%nat \/ i = 2%nat \/ i = 3%nat \/ i = 4%nat
                 \/ i = 5%nat \/ i = 6%nat \/ i = 7%nat \/ i = 8%nat
                 \/ i = 9%nat) by lia.
    repeat (destruct Hc as [->|Hc]; [reflexivity|]). subst i. reflexivity.
  - reflexivity.
Defined.

(** One command of a run, executed on a world in constructor form. *)
Ltac step_run :=
  rewrite run_cons, execute_step;
  unfold Rover.set_direction, candidate;
  cbn [snd fst JS.obj JS.console Rover.grid Rover.direction
       Rover.x Rover.y].

(** X11: a move can be taken back. From a free cell of safe coordinates,
    if the move ahead is accepted, then move, turn around (two left
    turns), move, turn around gives back the very world the rover started
    in, and logs nothing. *)
Theorem move_and_return w :
  safeInteger (Rover.x (JS.obj w)) ->
  safeInteger (Rover.y (JS.obj w)) ->
  onFreeCell w ->
  admissible (Rover.grid (JS.obj w)) (candidate (JS.obj w)) = true ->
  JS.forEach Command.execute
    [Command.MoveCommand; Command.TurnLeftCommand; Command.TurnLeftCommand;
     Command.MoveCommand; Command.TurnLeftCommand; Command.TurnLeftCommand]
    w
  = (JS.Normal tt, w).
Proof.
  intros Hx Hy [Hin Hobs] Hadm. rewrite forEach_run. f_equal.
  apply not_blocked_iff in Hobs.
  destruct w as [[x y d g] out].
  unfold candidate in Hadm.
  cbn [JS.obj Rover.grid Rover.x Rover.y Rover.direction]
    in Hx, Hy, Hin, Hobs, Hadm.
  assert (Hhome : admissible g (x, y) = true).
  { apply admissible_iff. now split. }
  step_run. rewrite Hadm.
  do 3 step_run. rewrite (move_opposite d x y Hx Hy), Hhome.
  do 2 step_run.
  now destruct d.
Qed.

Lemma move_and_return_witness :
  JS.forEach Command.execute
    [Command.MoveCommand; Command.TurnLeftCommand; Command.TurnLeftCommand;
     Command.MoveCommand; Command.TurnLeftCommand; Command.TurnLeftCommand]
    Driver.start
  = (JS.Normal tt, Driver.start).
Proof.
  apply (move_and_return Driver.start).
  - reflexivity.
  - reflexivity.
  - split; [reflexivity|].
    vm_compute. intros [H|[H|[]]]; discriminate H.
  - reflexivity.
Defined.

End Journeys.

(** * Rovers that start anywhere *)

Section AnyStart.

Implicit Types (w : JS.World Rover.t) (cmds : list Command.t).

Lemma step_stays_or_lands_free (c : Command.t) w :
  let w1 := snd (Command.execute c w) in
  Rover.grid (JS.obj w1) = Rover.grid (JS.obj w)
  /\ (position w1 = position w \/ onFreeCell w1).
Proof.
  cbv zeta. rewrite execute_step. cbn [snd]. destruct c.
  - destruct (admissible _ _) eqn:Hadm.
    + split; [reflexivity|]. right.
      apply admissible_iff in Hadm as [Hin Hblk].
      apply not_blocked_iff in Hblk. now split.
    + split; [reflexivity|]. now left.
  - split; [reflexivity|]. now left.
  - split; [reflexivity|]. now left.
Qed.

(** X12: the constructor of [Rover] checks nothing, so a rover may be
    built outside the grid or on an obstacle. Whatever the start, after any
    run the rover either stands exactly where it was built or stands on a
    cell that is within bounds and holds no obstacle. *)
Theorem moved_rover_is_on_free_cell cmds w :
  position (run cmds w) = position w \/ onFreeCell (run cmds w).
Proof.
  revert w. induction cmds as [|c cmds IH]; intros w; [now left|].
  rewrite run_cons.
  destruct (step_stays_or_lands_free c w) as [_ [Hpos|Hfree]].
  - rewrite <- Hpos. apply IH.
  - right. now apply run_preserves_free.
Qed.

Lemma withinBounds_empty (g : Grid.t) (x y : Z) :
  Grid.width g <= 0 \/ Grid.height g <= 0 ->
  Grid.withinBounds g x y = false.
Proof.
  intros H. destruct (Grid.withinBounds g x y) eqn:E; [|reflexivity].
  apply withinBounds_iff in E. lia.
Qed.

(** X13: a grid of width or height zero or less has no cell within bounds
    (the constructor of [Grid] accepts it). On such a grid the rover never
    leaves the place it was built at, and every [MoveCommand] of a run logs
    one line. *)
Theorem rover_never_moves_on_empty_grid cmds w :
  Grid.width (Rover.grid (JS.obj w)) <= 0
  \/ Grid.height (Rover.grid (JS.obj w)) <= 0 ->
  position (run cmds w) = position w
  /\ List.length (JS.console (run cmds w))
     = (List.length (JS.console w) + count isMove cmds)%nat.
Proof.
  revert w. induction cmds as [|c cmds IH]; intros w H.
  - split; [reflexivity|]. cbn. lia.
  - rewrite run_cons, count_cons.
    assert (Hadm : admissible (Rover.grid (JS.obj w)) (candidate (JS.obj w))
                   = false).
    { unfold admissible. now rewrite withinBounds_empty. }
    pose proof (execute_step c w) as E. cbv zeta in E. rewrite Hadm in E.
    rewrite E. cbn [snd].
    destruct c; cbn [isMove].
    + destruct (IH (JS.mkWorld (JS.obj w)
                      (JS.console w
                       ++ [Rover.blockedMessage
                             (fst (candidate (JS.obj w)))
                             (snd (candidate (JS.obj w)))])) H)
        as [Hp Hl].
      split; [exact Hp|]. rewrite Hl. cbn [JS.console].
      rewrite length_app. cbn [List.length]. lia.
    + destruct (IH (JS.mkWorld
                      (Rover.set_direction
                         (Direction.left (Rover.direction (JS.obj w)))
                         (JS.obj w))
                      (JS.console w)) H) as [Hp Hl].
      split; [exact Hp|]. rewrite Hl. reflexivity.
    + destruct (IH (JS.mkWorld
                      (Rover.set_direction
                         (Direction.right (Rover.direction (JS.obj w)))
                         (JS.obj w))
                      (JS.console w)) H) as [Hp Hl].
      split; [exact Hp|]. rewrite Hl. reflexivity.
Qed.

Lemma rover_never_moves_on_empty_grid_witness :
  let w := JS.mkWorld (Rover.new 0 0 Direction.East (Grid.new 0 5)) [] in
  let cmds := [Command.MoveCommand; Command.TurnLeftCommand;
               Command.MoveCommand] in
  position (run cmds w) = (0, 0)
  /\ List.length (JS.console (run cmds w)) = 2%nat.
Proof.
  intros w cmds. apply (rover_never_moves_on_empty_grid cmds w).
  left. cbn. lia.
Defined.

Lemma name_inj (d1 d2 : Direction.t) :
  Direction.name d1 = Direction.name d2 -> d1 = d2.
Proof. destruct d1, d2; cbn; intros E; congruence. Qed.

(** X14: the report tells the state apart. Two rovers on coordinates of
    at most 2^53 in magnitude whose [report()] strings are equal stand on
    the same cell and face the same way. *)
Theorem report_determines_position_and_heading w1 w2 :
  exactInteger (Rover.x (JS.obj w1)) -> exactInteger (Rover.y (JS.obj w1)) ->
  exactInteger (Rover.x (JS.obj w2)) -> exactInteger (Rover.y (JS.obj w2)) ->
  fst (Rover.report w1) = fst (Rover.report w2) ->
  position w1 = position w2 /\ heading w1 = heading w2.
Proof.
  intros H1x H1y H2x H2y. rewrite !report_run. cbn [fst]. intros E.
  injection E as E.
  apply append_cut in E as [Ex E];
    try (apply numberToString_free; [assumption|reflexivity]).
  injection E as E.
  apply append_cut in E as [Ey E];
    try (apply numberToString_free; [assumption|reflexivity]).
  injection E as E. apply name_inj in E.
  apply numberToString_inj in Ex, Ey; try assumption.
  unfold position, heading. now rewrite Ex, Ey, E.
Qed.

Lemma report_determines_position_and_heading_witness :
  position (JS.mkWorld (Rover.new 1 3 Direction.North (Grid.new 4 4)) [])
  = position (after 6)
  /\ heading (JS.mkWorld (Rover.new 1 3 Direction.North (Grid.new 4 4)) [])
     = heading (after 6).
Proof.
  apply report_determines_position_and_heading;
    try reflexivity; unfold exactInteger; cbn; lia.
Defined.

End AnyStart.

(** * The two drivers *)

Section Drivers.

Implicit Types (w : JS.World Rover.t) (sequence : list string).

Lemma commandsOf_cons (cmd : string) sequence :
  commandsOf (cmd :: sequence)
  = (match Driver.commandMap cmd with Some c => [c] | None => [] end
     ++ commandsOf sequence)%list.
Proof. reflexivity. Qed.

(** A run from any console, told from the run from the empty console. *)
Lemma run_frame_empty (cmds : list Command.t) (r : Rover.t) :
  let quiet := run cmds (JS.mkWorld r []) in
  (forall o, run cmds (JS.mkWorld r o)
             = JS.mkWorld (JS.obj quiet) (o ++ JS.console quiet))
  /\ Forall (fun l => exists a b : Z, l = Rover.blockedMessage a b)
            (JS.console quiet).
Proof.
  cbv zeta. destruct (run_frame cmds r) as (r' & lines & Hrun & _ & Hall).
  rewrite (Hrun []). cbn [JS.obj JS.console app]. now split.
Qed.

Lemma isInvalidLine_invalidLine (cmd : string) :
  isInvalidLine (invalidLine cmd) = true.
Proof. now destruct cmd. Qed.

Lemma isInvalidLine_blockedMessage (a b : Z) :
  isInvalidLine (Rover.blockedMessage a b) = false.
Proof. reflexivity. Qed.

(** The lines of the commands are no "Invalid command" lines. *)
Lemma filter_blocked_lines (lines : list string) :
  Forall (fun l => exists a b : Z, l = Rover.blockedMessage a b) lines ->
  filter isInvalidLine lines = []
  /\ filter (fun l => negb (isInvalidLine l)) lines = lines.
Proof.
  induction 1 as [|l lines (a & b & ->) _ [IH1 IH2]]; [now split|].
  cbn [filter]. rewrite isInvalidLine_blockedMessage. cbn [negb].
  now rewrite IH1, IH2.
Qed.

Lemma split_single_characters (s : string) :
  Forall (fun cmd => String.length cmd = 1%nat) (Index.split s).
Proof. induction s; constructor; auto. Qed.

(** What the checked loop of index.ts does with a sequence of single
    characters, from any console. *)
Lemma checked_loop_run sequence (r : Rover.t) :
  Forall (fun cmd => String.length cmd = 1%nat) sequence ->
  let quiet := run (commandsOf sequence) (JS.mkWorld r []) in
  exists lines : list string,
    (forall o,
        JS.forEach Driver.stepChecked sequence (JS.mkWorld r o)
        = (JS.Normal tt, JS.mkWorld (JS.obj quiet) (o ++ lines)))
    /\ filter isInvalidLine lines = map invalidLine (unknownOf sequence)
    /\ filter (fun l => negb (isInvalidLine l)) lines = JS.console quiet.
Proof.
  cbv zeta. intros Hall. revert r.
  induction Hall as [|cmd sequence _ _ IH]; intros r.
  - exists []. repeat split. intros o. cbn. now rewrite app_nil_r.
  - rewrite commandsOf_cons. unfold unknownOf. cbn [filter].
    fold (unknownOf sequence).
    destruct (Driver.commandMap cmd) as [c|] eqn:Hc; cbn [app].
    + destruct (run_frame_empty [c] r) as [Hstep Hall]. cbv zeta in Hstep.
      set (r1 := JS.obj (run [c] (JS.mkWorld r []))) in *.
      set (l1 := JS.console (run [c] (JS.mkWorld r []))) in *.
      destruct (IH r1) as (lines & Hloop & Hinv & Hcmd).
      destruct (run_frame_empty (commandsOf sequence) r1) as [Hrun _].
      cbv zeta in Hrun.
      destruct (filter_blocked_lines l1 Hall) as [F1 F2].
      assert (Hq : run (c :: commandsOf sequence) (JS.mkWorld r [])
                   = JS.mkWorld
                       (JS.obj (run (commandsOf sequence) (JS.mkWorld r1 [])))
                       (l1 ++ JS.console
                                (run (commandsOf sequence)
                                   (JS.mkWorld r1 [])))).
      { change (c :: commandsOf sequence)
          with ([c] ++ commandsOf sequence)%list.
        rewrite run_app, (Hstep []). cbn [app]. apply Hrun. }
      exists (l1 ++ lines)%list. rewrite Hq. cbn [JS.obj JS.console].
      repeat split.
      * intros o.
        assert (E : Driver.stepChecked cmd (JS.mkWorld r o)
                    = (JS.Normal tt, JS.mkWorld r1 (o ++ l1))).
        { unfold Driver.stepChecked. rewrite Hc.
          pose proof (execute_step c (JS.mkWorld r o)) as E.
          cbv zeta in E. rewrite E. f_equal.
          rewrite <- (Hstep o). unfold run. cbn [JS.forEach].
          unfold JS.bind. rewrite E. reflexivity. }
        rewrite (forEach_cons _ _ _ _ _ E), Hloop. now rewrite app_assoc.
      * now rewrite filter_app, F1, Hinv.
      * now rewrite filter_app, F2, Hcmd.
    + destruct (IH r) as (lines & Hloop & Hinv & Hcmd).
      exists (invalidLine cmd :: lines). repeat split.
      * intros o.
        assert (E : Driver.stepChecked cmd (JS.mkWorld r o)
                    = (JS.Normal tt, JS.mkWorld r (o ++ [invalidLine cmd]))).
        { unfold Driver.stepChecked. now rewrite Hc. }
        rewrite (forEach_cons _ _ _ _ _ E), Hloop.
        now rewrite <- app_assoc.
      * cbn [filter map]. rewrite isInvalidLine_invalidLine.
        now rewrite Hinv.
      * cbn [filter]. rewrite isInvalidLine_invalidLine. exact Hcmd.
Qed.

(** X15: the interactive driver reports the characters it does not know
    and goes on. For a typed line of ASCII characters, with [sequence] its
    trimmed, upper-cased characters and [quiet] the run of the known
    commands of [sequence] from an empty console: the callback returns
    normally; it leaves the rover of [quiet], which is also the rover the
    known commands lead to from the console at hand; it keeps the console
    it found and appends to it some lines and, last, "Final rover state: "
    followed by the report of that rover; among the lines in between, the
    "Invalid command" lines are those of the unknown characters, one each
    and in their order, and the other lines are exactly the lines of
    [quiet], in their order. *)
Theorem interactive_run_skips_unknown_characters (answer : string) w :
  allChars isAscii answer = true ->
  let sequence := Index.split (Index.toUpperCase (Index.trim answer)) in
  let quiet := run (commandsOf sequence) (JS.mkWorld (JS.obj w) []) in
  exists (lines : list string) (line : string),
    Index.onAnswer answer w
    = (JS.Normal tt,
       JS.mkWorld (JS.obj quiet)
         (JS.console w ++ lines
          ++ [("Final rover state: " ++ line)%string]))
    /\ Rover.report quiet = (JS.Normal line, quiet)
    /\ run (commandsOf sequence) w
       = JS.mkWorld (JS.obj quiet) (JS.console w ++ JS.console quiet)
    /\ filter isInvalidLine lines = map invalidLine (unknownOf sequence)
    /\ filter (fun l => negb (isInvalidLine l)) lines = JS.console quiet.
Proof.
  intros _. cbv zeta. destruct w as [r out]. cbn [JS.obj JS.console].
  destruct (checked_loop_run
              (Index.split (Index.toUpperCase (Index.trim answer))) r
              (split_single_characters _))
    as (lines & Hloop & Hinv & Hcmd).
  cbv zeta in Hloop.
  destruct (run_frame_empty
              (commandsOf
                 (Index.split (Index.toUpperCase (Index.trim answer)))) r)
    as [Hrun _].
  cbv zeta in Hrun.
  eexists lines, _. split; [|split; [|split; [|split]]].
  - unfold Index.onAnswer, Driver.interactive, JS.bind.
    rewrite Hloop, report_run. unfold JS.console_log.
    cbn [JS.obj JS.console]. rewrite <- app_assoc. reflexivity.
  - apply report_run.
  - apply Hrun.
  - exact Hinv.
  - exact Hcmd.
Qed.

Lemma interactive_run_skips_unknown_characters_witness :
  let sequence := Index.split (Index.toUpperCase (Index.trim "m x L")) in
  let quiet := run (commandsOf sequence) (JS.mkWorld Driver.rover []) in
  exists (lines : list string) (line : string),
    Index.onAnswer "m x L" Driver.start
    = (JS.Normal tt,
       JS.mkWorld (JS.obj quiet)
         ([] ++ lines ++ [("Final rover state: " ++ line)%string]))
    /\ Rover.report quiet = (JS.Normal line, quiet)
    /\ run (commandsOf sequence) Driver.start
       = JS.mkWorld (JS.obj quiet) ([] ++ JS.console quiet)
    /\ filter isInvalidLine lines = map invalidLine (unknownOf sequence)
    /\ filter (fun l => negb (isInvalidLine l)) lines = JS.console quiet.
Proof.
  exact (interactive_run_skips_unknown_characters "m x L" Driver.start
           eq_refl).
Defined.

Example interactive_run_example :
  Index.onAnswer "m x L" Driver.start
  = (JS.Normal tt,
     JS.mkWorld (Rover.new 0 1 Direction.West Driver.grid)
       ["Invalid command:  "; "Invalid command: X"; "Invalid command:  ";
        "Final rover state: Rover is at (0, 1) facing W"]%string).
Proof. reflexivity. Qed.

(** X16: the scripted driver calls [commandMap[cmd]] unchecked. If the
    sequence holds a character the map does not know, the loop throws at
    the first such character: the commands before it have run, nothing
    after it runs, and the world is the one those commands left. *)
Theorem scripted_run_stops_at_unknown_character
    (pre post : list string) (bad : string) w :
  Forall (fun cmd => Driver.commandMap cmd <> None) pre ->
  String.length bad = 1%nat ->
  Driver.commandMap bad = None ->
  exists e : string,
    JS.forEach Driver.step (pre ++ bad :: post) w
    = (JS.Thrown e, run (commandsOf pre) w).
Proof.
  intros Hpre _ Hbad. revert w.
  induction Hpre as [|cmd pre Hcmd Hpre IH]; intros w.
  - cbn. unfold JS.bind, Driver.step. rewrite Hbad. cbn. eauto.
  - rewrite commandsOf_cons.
    destruct (Driver.commandMap cmd) as [c|] eqn:Hc; [|now contradiction Hcmd].
    pose proof (execute_step c w) as E. cbv zeta in E.
    assert (E' : Driver.step cmd w
                 = (JS.Normal tt, snd (Command.execute c w))).
    { unfold Driver.step. rewrite Hc, E. reflexivity. }
    rewrite <- app_comm_cons, (forEach_cons _ _ _ _ _ E').
    cbn [app]. rewrite run_cons. apply IH.
Qed.

Lemma scripted_run_stops_at_unknown_character_witness :
  exists e : string,
    JS.forEach Driver.step ["M"; "R"; "x"; "M"]%string Driver.start
    = (JS.Thrown e,
       JS.mkWorld (Rover.new 0 1 Direction.East Driver.grid) []).
Proof.
  apply (scripted_run_stops_at_unknown_character
           ["M"; "R"]%string ["M"]%string "x" Driver.start).
  - repeat constructor; discriminate.
  - reflexivity.
  - reflexivity.
Defined.

End Drivers.

(** * The typed line *)

Section TypedLine.

Lemma isWhiteSpace_upper (c : ascii) :
  Index.isWhiteSpace (Index.upper c) = Index.isWhiteSpace c.
Proof. destruct c as [[] [] [] [] [] [] [] []]; reflexivity. Qed.

Lemma upper_upper (c : ascii) : Index.upper (Index.upper c) = Index.upper c.
Proof. destruct c as [[] [] [] [] [] [] [] []]; reflexivity. Qed.

Lemma toUpperCase_idempotent (s : string) :
  Index.toUpperCase (Index.toUpperCase s) = Index.toUpperCase s.
Proof.
  induction s as [|c s IH]; [reflexivity|].
  cbn. now rewrite upper_upper, IH.
Qed.

Lemma trimStart_toUpperCase (s : string) :
  Index.trimStart (Index.toUpperCase s)
  = Index.toUpperCase (Index.trimStart s).
Proof.
  induction s as [|c s IH]; [reflexivity|].
  cbn [Index.toUpperCase Index.trimStart]. rewrite isWhiteSpace_upper.
  now destruct (Index.isWhiteSpace c).
Qed.

Lemma trimEnd_toUpperCase (s : string) :
  Index.trimEnd (Index.toUpperCase s) = Index.toUpperCase (Index.trimEnd s).
Proof.
  induction s as [|c s IH]; [reflexivity|].
  cbn [Index.toUpperCase Index.trimEnd]. rewrite IH, isWhiteSpace_upper.
  destruct (Index.trimEnd s); cbn [Index.toUpperCase]; [|reflexivity].
  now destruct (Index.isWhiteSpace c).
Qed.

Lemma trimStart_blank (pad : string) :
  allChars Index.isWhiteSpace pad = true -> Index.trimStart pad = EmptyString.
Proof.
  induction pad as [|c pad IH]; [reflexivity|].
  cbn. intros H. apply andb_true_iff in H as [-> H]. auto.
Qed.

Lemma trimEnd_blank (pad : string) :
  allChars Index.isWhiteSpace pad = true -> Index.trimEnd pad = EmptyString.
Proof.
  induction pad as [|c pad IH]; [reflexivity|].
  cbn. intros H. apply andb_true_iff in H as [-> H]. now rewrite IH.
Qed.

Lemma trimStart_pad (pad s : string) :
  allChars Index.isWhiteSpace pad = true ->
  Index.trimStart (pad ++ s) = Index.trimStart s.
Proof.
  induction pad as [|c pad IH]; [reflexivity|].
  cbn. intros H. apply andb_true_iff in H as [-> H]. auto.
Qed.

Lemma trimEnd_pad (s pad : string) :
  allChars Index.isWhiteSpace pad = true ->
  Index.trimEnd (s ++ pad) = Index.trimEnd s.
Proof.
  intros H. induction s as [|c s IH].
  - now apply trimEnd_blank.
  - cbn. now rewrite IH.
Qed.

Lemma trim_pad_end (s pad : string) :
  allChars Index.isWhiteSpace pad = true ->
  Index.trim (s ++ pad) = Index.trim s.
Proof.
  intros H. unfold Index.trim. induction s as [|c s IH].
  - cbn. now rewrite (trimStart_blank pad H).
  - cbn [append Index.trimStart]. destruct (Index.isWhiteSpace c); [exact IH|].
    change (String c (s ++ pad)) with (String c s ++ pad)%string.
    now apply trimEnd_pad.
Qed.

(** X17: the interactive driver reads the typed line up to case and
    surrounding blanks. For a line of ASCII characters, its upper-case form
    is run in the same way, and so is the line with blanks (space, tab,
    line feed, vertical tab, form feed, carriage return) put before and
    after it: the sequence of characters handed to the loop is the same. *)
Theorem interactive_run_ignores_case_and_padding (answer pad1 pad2 : string) :
  allChars isAscii answer = true ->
  allChars Index.isWhiteSpace pad1 = true ->
  allChars Index.isWhiteSpace pad2 = true ->
  Index.split (Index.toUpperCase (Index.trim (pad1 ++ answer ++ pad2)))
  = Index.split (Index.toUpperCase (Index.trim answer))
  /\ Index.split
       (Index.toUpperCase (Index.trim (Index.toUpperCase answer)))
     = Index.split (Index.toUpperCase (Index.trim answer))
  /\ Index.onAnswer (pad1 ++ answer ++ pad2) = Index.onAnswer answer
  /\ Index.onAnswer (Index.toUpperCase answer) = Index.onAnswer answer.
Proof.
  intros _ H1 H2.
  assert (Epad : Index.trim (pad1 ++ answer ++ pad2) = Index.trim answer).
  { unfold Index.trim at 1. rewrite trimStart_pad by exact H1.
    now apply trim_pad_end. }
  assert (Eup : Index.toUpperCase (Index.trim (Index.toUpperCase answer))
                = Index.toUpperCase (Index.trim answer)).
  { unfold Index.trim.
    now rewrite trimStart_toUpperCase, trimEnd_toUpperCase,
      toUpperCase_idempotent. }
  unfold Index.onAnswer. rewrite Epad, Eup. now repeat split.
Qed.

Lemma interactive_run_ignores_case_and_padding_witness :
  Index.onAnswer "  mmrmlm " = Index.onAnswer "mmrmlm"
  /\ Index.onAnswer "MMRMLM" = Index.onAnswer "mmrmlm".
Proof.
  destruct (interactive_run_ignores_case_and_padding "mmrmlm" "  " " "
              eq_refl eq_refl eq_refl) as (_ & _ & Epad & Eup).
  split; [exact Epad|exact Eup].
Defined.

End TypedLine.

(** * Reaching a cell *)

Section Reachability.

Implicit Types (w : JS.World Rover.t) (d : Direction.t).

(** At most three left turns bring the rover to face any heading. *)
Lemma face_any_heading w d :
  exists n : nat,
    run (repeat Command.TurnLeftCommand n) w
    = JS.mkWorld
        (Rover.mk (fst (position w)) (snd (position w)) d
           (Rover.grid (JS.obj w)))
        (JS.console w).
Proof.
  destruct w as [[x y d0 g] out].
  destruct d0, d;
    first [ now exists 0%nat | now exists 1%nat
          | now exists 2%nat | now exists 3%nat ].
Qed.

Lemma ahead_within_bounds (g : Grid.t) d (k i : Z) (p : Z * Z) :
  1 <= i <= k ->
  Grid.withinBounds g (fst p) (snd p) = true ->
  Grid.withinBounds g (fst (ahead d k p)) (snd (ahead d k p)) = true ->
  Grid.withinBounds g (fst (ahead d i p)) (snd (ahead d i p)) = true.
Proof.
  rewrite !withinBounds_iff. destruct d, p as [x y]; cbn; lia.
Qed.

Lemma no_obstacles_never_blocked (g : Grid.t) (x y : Z) :
  Grid.obstacles g = [] -> Grid.isBlocked g x y = false.
Proof. intros H. apply not_blocked_iff. rewrite H. intros []. Qed.

(** On a grid without obstacles, turn to face [d] and drive [k] cells: the
    rover gets there if the cell it aims at is within bounds. *)
Lemma within_bounds_safe (g : Grid.t) (x y : Z) :
  safeGrid g -> Grid.withinBounds g x y = true ->
  safeInteger x /\ safeInteger y.
Proof.
  unfold safeGrid, safeInteger. rewrite withinBounds_iff. lia.
Qed.

Lemma drive_along w d (k : nat) :
  safeGrid (Rover.grid (JS.obj w)) ->
  Grid.obstacles (Rover.grid (JS.obj w)) = [] ->
  Grid.withinBounds (Rover.grid (JS.obj w))
    (fst (position w)) (snd (position w)) = true ->
  Grid.withinBounds (Rover.grid (JS.obj w))
    (fst (ahead d (Z.of_nat k) (position w)))
    (snd (ahead d (Z.of_nat k) (position w))) = true ->
  exists cmds,
    run cmds w
    = JS.mkWorld
        (Rover.mk (fst (ahead d (Z.of_nat k) (position w)))
                  (snd (ahead d (Z.of_nat k) (position w)))
                  d (Rover.grid (JS.obj w)))
        (JS.console w).
Proof.
  intros Hg Hobs Hin Hk.
  destruct (face_any_heading w d) as [n Hn].
  exists (repeat Command.TurnLeftCommand n
          ++ repeat Command.MoveCommand k)%list.
  rewrite run_app, Hn.
  set (w1 := JS.mkWorld _ _).
  assert (Hsafe1 : safeWorld w1).
  { destruct (within_bounds_safe _ _ _ Hg Hin) as [Sx Sy].
    split; [exact Sx|]. split; [exact Sy|exact Hg]. }
  rewrite (run_free_cells k w1 Hsafe1); [reflexivity|].
  intros i Hi. apply admissible_iff. split.
  - apply ahead_within_bounds with (k := Z.of_nat k);
      [lia|exact Hin|exact Hk].
  - now apply no_obstacles_never_blocked.
Qed.

(** X18: on a grid without obstacles, of width and height at most 2^53,
    every cell is within reach. From any cell within bounds, facing any
    way, some sequence of commands takes the rover to any given cell within
    bounds, without a single rejected move: the console is left as it
    was. *)
Theorem every_cell_reachable_without_obstacles w (tx ty : Z) :
  safeGrid (Rover.grid (JS.obj w)) ->
  Grid.obstacles (Rover.grid (JS.obj w)) = [] ->
  Grid.withinBounds (Rover.grid (JS.obj w))
    (fst (position w)) (snd (position w)) = true ->
  Grid.withinBounds (Rover.grid (JS.obj w)) tx ty = true ->
  exists cmds : list Command.t,
    JS.forEach Command.execute cmds w
    = (JS.Normal tt, run cmds w)
    /\ position (run cmds w) = (tx, ty)
    /\ JS.console (run cmds w) = JS.console w.
Proof.
  intros Hg Hobs Hin Htgt.
  destruct w as [[x y d0 g] out].
  cbn [JS.obj Rover.grid position Rover.x Rover.y fst snd]
    in Hg, Hobs, Hin, Htgt.
  set (w := JS.mkWorld (Rover.mk x y d0 g) out).
  pose proof Hin as Hin'. pose proof Htgt as Htgt'.
  apply withinBounds_iff in Hin', Htgt'.
  (* along the x axis *)
  set (dx := if tx >=? x then Direction.East else Direction.West).
  assert (Hx : ahead dx (Z.of_nat (Z.to_nat (Z.abs (tx - x)))) (x, y)
               = (tx, y)).
  { unfold dx. destruct (Z.geb_spec tx x); cbn; f_equal; lia. }
  destruct (drive_along w dx (Z.to_nat (Z.abs (tx - x)))) as [cmds1 H1].
  { exact Hg. }
  { exact Hobs. }
  { exact Hin. }
  { change (position w) with (x, y). rewrite Hx. cbn [fst snd].
    apply withinBounds_iff. cbn [JS.obj Rover.grid w]. lia. }
  change (position w) with (x, y) in H1. rewrite Hx in H1.
  cbn [fst snd JS.obj JS.console Rover.grid w] in H1.
  (* along the y axis *)
  set (w1 := JS.mkWorld (Rover.mk tx y dx g) out) in H1.
  set (dy := if ty >=? y then Direction.North else Direction.South).
  assert (Hy : ahead dy (Z.of_nat (Z.to_nat (Z.abs (ty - y)))) (tx, y)
               = (tx, ty)).
  { unfold dy. destruct (Z.geb_spec ty y); cbn; f_equal; lia. }
  destruct (drive_along w1 dy (Z.to_nat (Z.abs (ty - y)))) as [cmds2 H2].
  { exact Hg. }
  { exact Hobs. }
  { apply withinBounds_iff. cbn. lia. }
  { change (position w1) with (tx, y). rewrite Hy. exact Htgt. }
  change (position w1) with (tx, y) in H2. rewrite Hy in H2.
  cbn [fst snd JS.obj JS.console Rover.grid w1] in H2.
  exists (cmds1 ++ cmds2)%list.
  split; [apply forEach_run|].
  rewrite run_app, H1, H2. now split.
Qed.

Lemma every_cell_reachable_without_obstacles_witness :
  exists cmds : list Command.t,
    JS.forEach Command.execute cmds
      (JS.mkWorld (Rover.new 3 4 Direction.South (Grid.new 6 6)) [])
    = (JS.Normal tt,
       run cmds (JS.mkWorld (Rover.new 3 4 Direction.South (Grid.new 6 6)) []))
    /\ position
         (run cmds
            (JS.mkWorld (Rover.new 3 4 Direction.South (Grid.new 6 6)) []))
       = (0, 5)
    /\ JS.console
         (run cmds
            (JS.mkWorld (Rover.new 3 4 Direction.South (Grid.new 6 6)) []))
       = [].
Proof.
  apply (every_cell_reachable_without_obstacles
           (JS.mkWorld (Rover.new 3 4 Direction.South (Grid.new 6 6)) [])
           0 5); try reflexivity.
  unfold safeGrid. cbn. lia.
Defined.

End Reachability.

(** * The two loops side by side *)

Section TwoLoops.

(** X19: on a sequence made of the letters the map knows, the unchecked
    loop of dist/index.js and the checked loop of index.ts do the same:
    both return normally and leave the world the commands lead to. They
    part only on an unknown character. *)
Theorem loops_agree_on_known_letters
    (sequence : list string) (w : JS.World Rover.t) :
  Forall (fun cmd => Driver.commandMap cmd <> None) sequence ->
  JS.forEach Driver.step sequence w
  = (JS.Normal tt, run (commandsOf sequence) w)
  /\ JS.forEach Driver.stepChecked sequence w
     = (JS.Normal tt, run (commandsOf sequence) w).
Proof.
  intros H. revert w.
  induction H as [|cmd sequence Hcmd H IH]; intros w; [now split|].
  rewrite commandsOf_cons.
  destruct (Driver.commandMap cmd) as [c|] eqn:Hc; [|now contradiction Hcmd].
  pose proof (execute_step c w) as E. cbv zeta in E.
  assert (E1 : Driver.step cmd w
               = (JS.Normal tt, snd (Command.execute c w))).
  { unfold Driver.step. rewrite Hc, E. reflexivity. }
  assert (E2 : Driver.stepChecked cmd w
               = (JS.Normal tt, snd (Command.execute c w))).
  { unfold Driver.stepChecked. rewrite Hc, E. reflexivity. }
  rewrite (forEach_cons _ _ _ _ _ E1), (forEach_cons _ _ _ _ _ E2).
  cbn [app]. rewrite run_cons. apply IH.
Qed.

Lemma loops_agree_on_known_letters_witness :
  JS.forEach Driver.step Driver.sequence Driver.start
  = (JS.Normal tt, after 6)
  /\ JS.forEach Driver.stepChecked Driver.sequence Driver.start
     = (JS.Normal tt, after 6).
Proof.
  apply (loops_agree_on_known_letters Driver.sequence Driver.start).
  repeat constructor; discriminate.
Defined.

End TwoLoops.
